(** * check-mps-price-telegram.py: the polling / alerting control loop

    A shallow embedding of the script's main loop and of the helpers it
    calls, followed by the properties of the threshold state machine, of the
    command parser and of the message cursor.

    Conventions of the embedding.
    - Python floats are IEEE binary64 values, modelled by [spec_float] with
      [prec = 53] and [emax = 1024]; [<] and [>] are [SFltb].
    - Python ints are [Z]; [None] is [option]'s [None]; a module-level name
      that has not been assigned yet is [None] as well ([current_update_id]).
    - A text ([str]) is the list of its Unicode code points.
    - The two transports (chat API, exchange router) are inputs: every
      iteration of the loop receives what [getUpdates] and [getAmountsOut]
      answer.  What the program does to the outside world is recorded in a
      trace of events.
    - An exception no handler catches ends the [while True] loop; it is an
      outcome of its own, carrying the machine at the point of the raise. *)

From Stdlib Require Import ZArith List String Ascii Bool Lia Sorted.
From Stdlib Require Import Floats.SpecFloat.
Import ListNotations.

Set Implicit Arguments.

(** ** Python floats *)

Module PyFloat.

Definition float : Type := spec_float.

Definition prec : Z := 53.
Definition emax : Z := 1024.

(** [a < b] and [a > b] on floats; both are false when a NaN is involved. *)
Definition lt (a b : float) : bool := SFltb a b.
Definition gt (a b : float) : bool := SFltb b a.
Definition le (a b : float) : bool := SFleb a b.

Definition is_nan (a : float) : bool :=
  match a with S754_nan => true | _ => false end.

(** The binary64 value nearest to [n / d] (ties to even), for [n, d > 0]:
    the division rounds the exact quotient of the two integers once. *)
Definition of_quotient (neg : bool) (n d : positive) : float :=
  SFdiv prec emax (S754_finite neg n 0) (S754_finite false d 0).

(** The closed interval test the specification phrases as
    [price ∈ [lower, upper]]. *)
Definition in_range (lower upper price : float) : bool :=
  le lower price && le price upper.

End PyFloat.

Import PyFloat.

(** ** Exceptions and results of builtins *)

Inductive exn : Type :=
| NameError
| ValueError
| ZeroDivisionError
| OverflowError
| IndexError
| TransportError.

Inductive result (A : Type) : Type :=
| Ok (a : A)
| Err (e : exn).

Arguments Err {A} e.

(** [a / b] on ints (true division): correctly rounded, [ZeroDivisionError]
    for [b = 0], [OverflowError] when the quotient is too large for a
    float. *)
Definition int_truediv (a b : Z) : result float :=
  match a, b with
  | _, Z0 => Err ZeroDivisionError
  | Z0, Zpos _ => Ok (S754_zero false)
  | Z0, Zneg _ => Ok (S754_zero true)
  | Zpos n, Zpos d =>
      match of_quotient false n d with
      | S754_infinity _ => Err OverflowError
      | f => Ok f
      end
  | Zneg n, Zpos d | Zpos n, Zneg d =>
      match of_quotient true n d with
      | S754_infinity _ => Err OverflowError
      | f => Ok f
      end
  | Zneg n, Zneg d =>
      match of_quotient false n d with
      | S754_infinity _ => Err OverflowError
      | f => Ok f
      end
  end.

(** ** Texts: character classes, [str.strip], the command pattern *)

Module Text.

(** A character is a Unicode code point; a text ([str]) is a list of them.
    The two tables below follow the Unicode version of the interpreter;
    the properties proved of the pattern use only that white space, the
    decimal digits and the dot are disjoint and that the newline is white
    space. *)
Definition char : Type := N.
Definition text : Type := list char.

(** A literal of the script, written in ASCII. *)
Definition txt (s : string) : text := map N_of_ascii (list_ascii_of_string s).

(** The code points [str.isspace] holds of; the class [\s] of a [str]
    pattern and [str.strip] use the same test (Unicode 14.0, as in
    CPython 3.11). *)
Definition space_points : list N :=
  [9; 10; 11; 12; 13; 28; 29; 30; 31; 32; 133; 160; 5760; 8192; 8193; 8194;
   8195; 8196; 8197; 8198; 8199; 8200; 8201; 8202; 8232; 8233; 8239; 8287;
   12288]%N.

Definition is_space (c : char) : bool := existsb (N.eqb c) space_points.

(** The decimal digits of Unicode come in runs of ten consecutive code
    points with the values 0 to 9; these are the code points of the zeros
    (Unicode 14.0, as in CPython 3.11).  The class [\d] of a [str] pattern
    holds of exactly these digits, and [float] reads each of them as its
    value. *)
Definition digit_zeros : list N :=
  [48; 1632; 1776; 1984; 2406; 2534; 2662; 2790; 2918; 3046; 3174; 3302;
   3430; 3558; 3664; 3792; 3872; 4160; 4240; 6112; 6160; 6470; 6608; 6784;
   6800; 6992; 7088; 7232; 7248; 42528; 43216; 43264; 43472; 43504; 43600;
   44016; 65296; 66720; 68912; 69734; 69872; 69942; 70096; 70384; 70736;
   70864; 71248; 71360; 71472; 71904; 72016; 72784; 73040; 73120; 92768;
   92864; 93008; 120782; 120792; 120802; 120812; 120822; 123200; 123632;
   125264; 130032]%N.

(** The value of a decimal digit. *)
Definition digit_of (c : char) : option N :=
  match find (fun z => (z <=? c) && (c <? z + 10))%N digit_zeros with
  | Some z => Some (c - z)%N
  | None => None
  end.

(** [\d] *)
Definition is_digit (c : char) : bool :=
  match digit_of c with Some _ => true | None => false end.

Definition is_dot (c : char) : bool := (c =? 46)%N.

(** The class [[\d\.]]. *)
Definition is_numchar (c : char) : bool := is_digit c || is_dot c.

(** Longest prefix in a class, and what follows it. *)
Fixpoint span (p : char -> bool) (s : text) : text * text :=
  match s with
  | [] => ([], [])
  | c :: r => if p c then let (a, b) := span p r in (c :: a, b) else ([], s)
  end.

Fixpoint lstrip (s : text) : text :=
  match s with
  | [] => []
  | c :: r => if is_space c then lstrip r else s
  end.

Definition rstrip (s : text) : text := rev (lstrip (rev s)).

(** [s.strip()] *)
Definition strip (s : text) : text := rstrip (lstrip s).

(** Removes a literal prefix. *)
Fixpoint drop_literal (lit s : text) : option text :=
  match lit, s with
  | [], _ => Some s
  | a :: lit', c :: s' => if (a =? c)%N then drop_literal lit' s' else None
  | _ :: _, [] => None
  end.

Definition keyword : text := txt "monitor-mps".

Definition is_nil (s : text) : bool :=
  match s with [] => true | _ => false end.

(** [$] without [re.MULTILINE]: the end of the text, or just before a
    newline that ends the text. *)
Definition at_end (s : text) : bool :=
  match s with
  | [] => true
  | [c] => (c =? 10)%N
  | _ => false
  end.

(** [re.match(r"^monitor-mps\s+([\d\.]+)\s+([\d\.]+)$", s)]: the two groups
    on a match.  The classes [\s] and [[\d\.]] are disjoint, so the greedy
    runs are the only way the pattern can match and no backtracking is
    involved. *)
Definition re_match (s : text) : option (text * text) :=
  match drop_literal keyword s with
  | None => None
  | Some r0 =>
      let (ws1, r1) := span is_space r0 in
      let (g1, r2) := span is_numchar r1 in
      let (ws2, r3) := span is_space r2 in
      let (g2, r4) := span is_numchar r3 in
      if is_nil ws1 || is_nil g1 || is_nil ws2 || is_nil g2 || negb (at_end r4)
      then None
      else Some (g1, g2)
  end.

(** Value of a run of decimal digits, most significant first. *)
Definition digit_value (c : char) : Z :=
  match digit_of c with Some v => Z.of_N v | None => 0%Z end.

Definition digits_value (ds : text) : Z :=
  fold_left (fun acc c => 10 * acc + digit_value c)%Z ds 0%Z.

(** The float nearest to the decimal [n / 10^k]; a decimal too large for
    a finite float gives the infinity, as [float] does on a text. *)
Definition decimal_to_float (n : Z) (k : nat) : float :=
  match n with
  | Zpos p => of_quotient false p (Z.to_pos (10 ^ Z.of_nat k))
  | _ => S754_zero false
  end.

(** [float(s)] for the texts the script passes to it, the groups of
    [re_match]: runs of digits and dots.  Such a text is a float literal
    when it has at least one digit and at most one dot ("12", "1.5", "1."
    and ".5" are; ".", "1.2.3" and "1..2" raise [ValueError]). *)
Definition py_float (s : text) : result float :=
  let (ip, r) := span is_digit s in
  match r with
  | [] =>
      if is_nil ip then Err ValueError
      else Ok (decimal_to_float (digits_value ip) 0)
  | c :: fp =>
      if is_dot c && forallb is_digit fp && negb (is_nil ip && is_nil fp)
      then Ok (decimal_to_float (digits_value (ip ++ fp)%list) (List.length fp))
      else Err ValueError
  end.

#[global] Arguments is_space : simpl never.
#[global] Arguments is_digit : simpl never.
#[global] Arguments digit_of : simpl never.

End Text.

Import Text.

(** ** The program's variables, its inputs and its observable events *)

(** A chat update as [getUpdates] delivers it: a JSON object whose keys
    [update_id], [message] and, inside the message, [text] may be absent. *)
Record tg_message : Type := { text_field : option text }.

Record update : Type := {
  update_id : option Z;
  message : option tg_message
}.

(** What the chat API answers to one [getUpdates] call: a request that
    raised [RequestException], or a JSON body with or without [result]. *)
Inductive poll_response : Type :=
| PollRequestException
| PollJson (result_field : option (list update)).

(** What the router answers to one [getAmountsOut] call: any exception, or
    the list of amounts. *)
Inductive quote_response : Type :=
| QuoteException
| QuoteAmounts (amounts_out : list Z).

(** The inputs of one iteration of the loop. *)
Record inputs : Type := {
  poll : poll_response;
  quote : quote_response
}.

(** Texts handed to [send_telegram_text]. *)
Inductive outbound : Type :=
| StartMessage
| LimitsUpdated (lower upper : float)
| Alert (price : float).

(** Console lines (time stamps left out). *)
Inductive console : Type :=
| ScriptStarted
| ReceivedUpdates (n : nat)
| LimitsUpdatedLine (lower upper : float)
| CurrentPrice (price : float)
| OutOfLimits
| BackInLimits
| UnableToRetrievePrice
| ErrorFetchingPrice
| ErrorFetchingUpdates.

Inductive event : Type :=
| GetUpdates (offset : option Z)
| SendMessage (m : outbound)
| GetAmountsOut
| PrintLine (l : console)
| Sleep (seconds : Z).

(** The module-level variables of the main block. *)
Record vars : Type := {
  lower_limit : option float;
  upper_limit : option float;
  alert_sent : bool;
  last_update_id : option Z;
  current_update_id : option Z
}.

Record machine : Type := {
  mem : vars;
  trace : list event
}.

(** ** A state-and-exception monad for the script *)

Inductive outcome (A : Type) : Type :=
| Ret (a : A) (m : machine)
| Raise (e : exn) (m : machine).

Arguments Raise {A} e m.

Definition M (A : Type) : Type := machine -> outcome A.

Definition ret {A} (a : A) : M A := fun m => Ret a m.

Definition bind {A B} (c : M A) (k : A -> M B) : M B :=
  fun m => match c m with
           | Ret a m' => k a m'
           | Raise e m' => Raise e m'
           end.

Definition raise {A} (e : exn) : M A := fun m => Raise e m.

Declare Scope py_scope.
Delimit Scope py_scope with py.
Notation "x <- c ;; k" := (bind c (fun x => k))
  (at level 61, c at next level, right associativity) : py_scope.
Notation "c ;; k" := (bind c (fun _ => k))
  (at level 61, right associativity) : py_scope.
Local Open Scope py_scope.

(** The machine an outcome ends in, returned or raised. *)
Definition final {A} (o : outcome A) : machine :=
  match o with Ret _ m => m | Raise _ m => m end.

Definition returns {A} (o : outcome A) : bool :=
  match o with Ret _ _ => true | Raise _ _ => false end.

Definition lift {A} (r : result A) : M A :=
  match r with Ok a => ret a | Err e => raise e end.

Definition emit (e : event) : M unit :=
  fun m => Ret tt {| mem := mem m; trace := trace m ++ [e] |}.

Definition read {A} (f : vars -> A) : M A := fun m => Ret (f (mem m)) m.

Definition update_vars (f : vars -> vars) : M unit :=
  fun m => Ret tt {| mem := f (mem m); trace := trace m |}.

(** Assignments.  Lines 176-177 assign the two limits one after the other
    with nothing in between; they are one step here. *)
Definition set_limits (lo up : float) : M unit :=
  update_vars (fun v =>
    {| lower_limit := Some lo; upper_limit := Some up;
       alert_sent := alert_sent v;
       last_update_id := last_update_id v;
       current_update_id := current_update_id v |}).

Definition set_alert_sent (b : bool) : M unit :=
  update_vars (fun v =>
    {| lower_limit := lower_limit v; upper_limit := upper_limit v;
       alert_sent := b;
       last_update_id := last_update_id v;
       current_update_id := current_update_id v |}).

Definition set_last_update_id (i : Z) : M unit :=
  update_vars (fun v =>
    {| lower_limit := lower_limit v; upper_limit := upper_limit v;
       alert_sent := alert_sent v;
       last_update_id := Some i;
       current_update_id := current_update_id v |}).

Definition set_current_update_id (i : Z) : M unit :=
  update_vars (fun v =>
    {| lower_limit := lower_limit v; upper_limit := upper_limit v;
       alert_sent := alert_sent v;
       last_update_id := last_update_id v;
       current_update_id := Some i |}).

(** Reading a name: [NameError] while it is unbound. *)
Definition read_current_update_id : M Z :=
  c <- read current_update_id ;;
  match c with
  | Some i => ret i
  | None => raise NameError
  end.

(** ** Helper functions of the script *)

(** [send_telegram_text]: one [sendMessage] request.  A failed request is
    caught inside the function, which returns in both cases; the console
    line it prints (sent, or error) is left out of the trace. *)
Definition send_telegram_text (m : outbound) : M unit := emit (SendMessage m).

Definition send_telegram_alert (price : float) : M unit :=
  send_telegram_text (Alert price).

(** The body of the [try] of [get_token_price]: the last amount over
    [10**18]. *)
Definition quoted_price (q : quote_response) : result float :=
  match q with
  | QuoteException => Err TransportError
  | QuoteAmounts amounts =>
      match rev amounts with
      | [] => Err IndexError
      | wxdai_raw :: _ => int_truediv wxdai_raw (10 ^ 18)
      end
  end.

(** [get_token_price]: [except Exception] turns every failure into [None]. *)
Definition get_token_price (q : quote_response) : M (option float) :=
  emit GetAmountsOut ;;
  match quoted_price q with
  | Ok price => ret (Some price)
  | Err _ => emit (PrintLine ErrorFetchingPrice) ;; ret None
  end.

(** [get_telegram_updates]: the [result] list, or [[]]. *)
Definition get_telegram_updates (offset : option Z) (r : poll_response)
  : M (list update) :=
  emit (GetUpdates offset) ;;
  match r with
  | PollJson (Some updates) => ret updates
  | PollJson None => ret []
  | PollRequestException => emit (PrintLine ErrorFetchingUpdates) ;; ret []
  end.

(** ** The main block *)

Definition initial_vars : vars :=
  {| lower_limit := None; upper_limit := None; alert_sent := false;
     last_update_id := None; current_update_id := None |}.

Definition initial : machine := {| mem := initial_vars; trace := [] |}.

(** Lines 169-184: the text of a message. *)
Definition apply_command_text (raw : text) : M unit :=
  let text := strip raw in
  match re_match text with
  | Some (g1, g2) =>
      new_lower <- lift (py_float g1) ;;
      new_upper <- lift (py_float g2) ;;
      set_limits new_lower new_upper ;;
      set_alert_sent false ;;
      send_telegram_text (LimitsUpdated new_lower new_upper) ;;
      emit (PrintLine (LimitsUpdatedLine new_lower new_upper))
  | None => ret tt
  end.

(** Lines 165-187: one update of the batch.  The whole body is under the
    [if 'update_id' in upd] of line 165, the assignment of line 187
    included: an update without identifier does nothing. *)
Definition process_update (upd : update) : M unit :=
  match update_id upd with
  | Some i =>
      set_current_update_id i ;;
      match message upd with
      | Some msg =>
          match text_field msg with
          | Some raw => apply_command_text raw
          | None => ret tt
          end
      | None => ret tt
      end ;;
      c <- read_current_update_id ;;
      set_last_update_id (c + 1)
  | None => ret tt
  end.

Fixpoint for_each {A} (body : A -> M unit) (l : list A) : M unit :=
  match l with
  | [] => ret tt
  | x :: r => body x ;; for_each body r
  end.

(** Lines 161-190. *)
Definition command_phase (updates : list update) : M unit :=
  match updates with
  | [] => emit (Sleep 1)
  | _ :: _ =>
      emit (PrintLine (ReceivedUpdates (List.length updates))) ;;
      for_each process_update updates
  end.

(** Lines 200-209, with the limits the guard of line 193 found. *)
Definition evaluate (lower upper price : float) : M unit :=
  if lt price lower || gt price upper then
    sent <- read alert_sent ;;
    if negb sent then
      send_telegram_alert price ;;
      set_alert_sent true ;;
      emit (PrintLine OutOfLimits)
    else ret tt
  else
    sent <- read alert_sent ;;
    (if sent then emit (PrintLine BackInLimits) else ret tt) ;;
    set_alert_sent false.

(** Lines 193-211. *)
Definition price_phase (q : quote_response) : M unit :=
  lo <- read lower_limit ;;
  up <- read upper_limit ;;
  match lo, up with
  | Some lower, Some upper =>
      p <- get_token_price q ;;
      match p with
      | Some price =>
          emit (PrintLine (CurrentPrice price)) ;;
          evaluate lower upper price
      | None => emit (PrintLine UnableToRetrievePrice)
      end
  | _, _ => ret tt
  end.

(** Lines 160-190: the poll and the commands it brings. *)
Definition poll_phase (r : poll_response) : M unit :=
  offset <- read last_update_id ;;
  updates <- get_telegram_updates offset r ;;
  command_phase updates.

(** Lines 160-214: one iteration of [while True]. *)
Definition iteration (i : inputs) : M unit :=
  poll_phase (poll i) ;;
  price_phase (quote i) ;;
  emit (Sleep 10).

(** Lines 148-156. *)
Definition startup : M unit :=
  send_telegram_text StartMessage ;;
  emit (PrintLine ScriptStarted).

(** The loop over the inputs of its first iterations. *)
Definition loop (ins : list inputs) : M unit := for_each iteration ins.

Definition main (ins : list inputs) : M unit := startup ;; loop ins.

(** ** Abstract view: the threshold monitor's state *)

Inductive monitor_state : Type := Unconfigured | Armed | Alerting.

Definition configured (v : vars) : bool :=
  match lower_limit v, upper_limit v with
  | Some _, Some _ => true
  | _, _ => false
  end.

Definition monitor_of (v : vars) : monitor_state :=
  if configured v then (if alert_sent v then Alerting else Armed)
  else Unconfigured.

(** ** Runs of [evaluate] under fixed limits *)

Definition evaluate_all (lower upper : float) (prices : list float) : M unit :=
  for_each (evaluate lower upper) prices.

(** The monitor's state before the first evaluation and after each one. *)
Fixpoint monitor_history (lower upper : float) (prices : list float)
  (m : machine) : list monitor_state :=
  monitor_of (mem m) ::
  match prices with
  | [] => []
  | p :: ps => monitor_history lower upper ps (final (evaluate lower upper p m))
  end.

Definition monitor_eqb (a b : monitor_state) : bool :=
  match a, b with
  | Unconfigured, Unconfigured | Armed, Armed | Alerting, Alerting => true
  | _, _ => false
  end.

(** Number of places where [from] is followed by [to]. *)
Fixpoint transitions (from to : monitor_state) (h : list monitor_state) : nat :=
  match h with
  | [] => 0
  | a :: r =>
      match r with
      | [] => 0
      | b :: _ =>
          (if monitor_eqb a from && monitor_eqb b to then 1 else 0)
          + transitions from to r
      end
  end.

Definition is_alert (e : event) : bool :=
  match e with SendMessage (Alert _) => true | _ => false end.

Definition is_confirmation (e : event) : bool :=
  match e with SendMessage (LimitsUpdated _ _) => true | _ => false end.

(** Number of alert notifications in a trace. *)
Definition alerts (t : list event) : nat := List.length (filter is_alert t).

Definition text_update (i : Z) (s : text) : update :=
  {| update_id := Some i; message := Some {| text_field := Some s |} |}.

(** ** The command grammar in the specification's words *)

(** A decimal number, optionally fractional, without sign or exponent: digits
    and at most one dot, with a digit somewhere. *)
Definition decimal (s : text) : bool :=
  forallb is_numchar s
  && existsb is_digit s
  && (List.length (filter is_dot s) <=? 1)%nat.

Definition blank (s : text) : bool :=
  negb (is_nil s) && forallb is_space s.

(** [monitor-mps <lower> <upper>]: the keyword and two decimals, separated
    by white space. *)
Definition command_grammar (s lower upper : text) : Prop :=
  exists ws1 ws2,
    s = (keyword ++ ws1 ++ lower ++ ws2 ++ upper)%list
    /\ blank ws1 = true /\ blank ws2 = true
    /\ decimal lower = true /\ decimal upper = true.

(** ** Concrete values used in the examples *)

(** The float a decimal text denotes (NaN for a text that is no literal). *)
Definition fl (s : string) : float :=
  match py_float (txt s) with Ok f => f | Err _ => S754_nan end.

(** A machine with the given limits and alert flag, nothing polled yet. *)
Definition configured_machine (lower upper : float) (sent : bool) : machine :=
  {| mem := {| lower_limit := Some lower; upper_limit := Some upper;
               alert_sent := sent;
               last_update_id := None; current_update_id := None |};
     trace := [] |}.

(** ** Machines and relations the statements are phrased with *)

(** The variables with [alert_sent] assigned. *)
Definition with_alert_sent (b : bool) (v : vars) : vars :=
  {| lower_limit := lower_limit v; upper_limit := upper_limit v;
     alert_sent := b;
     last_update_id := last_update_id v;
     current_update_id := current_update_id v |}.

(** The machine after an accepted command with limits [lo] and [up]. *)
Definition configured_by (lo up : float) (m : machine) : machine :=
  {| mem := {| lower_limit := Some lo; upper_limit := Some up;
               alert_sent := false;
               last_update_id := last_update_id (mem m);
               current_update_id := current_update_id (mem m) |};
     trace := trace m ++ [SendMessage (LimitsUpdated lo up);
                          PrintLine (LimitsUpdatedLine lo up)] |}.

(** The first character of a text is outside a class (or the text is
    empty): a run of the class stops there. *)
Definition stops (p : char -> bool) (s : text) : Prop :=
  match s with [] => True | c :: _ => p c = false end.

(** A builtin returned a value. *)
Definition accepted {A} (r : result A) : bool :=
  match r with Ok _ => true | Err _ => false end.

(** [c], run in any machine, ends (returning or raising) in a machine
    related by [R] to the one it started in. *)
Definition respects (R : machine -> machine -> Prop) {A} (c : M A) : Prop :=
  forall m, R m (final (c m)).

(** The two limits are both [None] or both set. *)
Definition paired_limits (v : vars) : bool :=
  match lower_limit v, upper_limit v with
  | Some _, Some _ | None, None => true
  | _, _ => false
  end.

(** Relations between the machine before and after a piece of the script. *)
Definition keeps_paired (m m' : machine) : Prop :=
  paired_limits (mem m) = true -> paired_limits (mem m') = true.

Definition same_limits (m m' : machine) : Prop :=
  lower_limit (mem m') = lower_limit (mem m)
  /\ upper_limit (mem m') = upper_limit (mem m).

Definition same_cursor (m m' : machine) : Prop :=
  last_update_id (mem m') = last_update_id (mem m)
  /\ current_update_id (mem m') = current_update_id (mem m).

Definition extends_trace (m m' : machine) : Prop :=
  exists t, trace m' = trace m ++ t.

(** The price check assigns neither the limits nor the cursor; it only adds
    to the trace. *)
Definition price_frame (m m' : machine) : Prop :=
  same_limits m m' /\ same_cursor m m' /\ extends_trace m m'.

(** Events of a price check: the router call, the price line, an alert. *)
Definition quiet (e : event) : bool :=
  match e with
  | GetAmountsOut | PrintLine (CurrentPrice _) | SendMessage (Alert _) => false
  | _ => true
  end.

(** From [m] to [m'] the trace grew, and if the monitor is unconfigured in
    [m'] it was in [m] and no price check took place in between. *)
Definition quiet_while_unconfigured (m m' : machine) : Prop :=
  exists t, trace m' = trace m ++ t
            /\ (configured (mem m') = false ->
                configured (mem m) = false /\ forallb quiet t = true).

(** What a price check prints when the quote fails. *)
Definition failed_price_trace (v : vars) : list event :=
  if configured v
  then [GetAmountsOut; PrintLine ErrorFetchingPrice; PrintLine UnableToRetrievePrice]
  else [].

(** ** The message cursor and the contract of [getUpdates] *)

(** Identifiers carried by the updates of a batch, in order. *)
Definition batch_ids (updates : list update) : list Z :=
  flat_map (fun u => match update_id u with Some i => [i] | None => [] end)
           updates.

(** The list [get_telegram_updates] returns for an answer. *)
Definition updates_of (r : poll_response) : list update :=
  match r with
  | PollJson (Some updates) => updates
  | _ => []
  end.

(** Order on cursors; [None], no update seen yet, is below every cursor. *)
Definition cursor_le (a b : option Z) : Prop :=
  match a, b with
  | None, _ => True
  | Some x, Some y => (x <= y)%Z
  | Some _, None => False
  end.

(** What [getUpdates] promises (docstring of [get_telegram_updates]): only
    updates with an identifier at or above the offset, in ascending order. *)
Definition honors_offset (offset : option Z) (updates : list update) : Prop :=
  StronglySorted Z.lt (batch_ids updates)
  /\ Forall (fun i => cursor_le offset (Some i)) (batch_ids updates).

(** Machines the script is in at the top of the loop when every poll so
    far was answered within the contract and every iteration returned,
    together with the identifiers of the updates processed so far. *)
Inductive lawful : machine -> list Z -> Prop :=
| lawful_start : lawful (final (startup initial)) []
| lawful_step m ids i m' :
    lawful m ids ->
    honors_offset (last_update_id (mem m)) (updates_of (poll i)) ->
    iteration i m = Ret tt m' ->
    lawful m' (ids ++ batch_ids (updates_of (poll i))).

(** ** Updates and texts that cannot stop the loop *)

(** A text on which lines 174-175 do not raise: the pattern does not match
    it, or both groups are decimals. *)
Definition safe_text (raw : text) : bool :=
  match re_match (strip raw) with
  | Some (g1, g2) => decimal g1 && decimal g2
  | None => true
  end.

Definition safe_update (u : update) : bool :=
  match message u with
  | Some msg =>
      match text_field msg with
      | Some raw => safe_text raw
      | None => true
      end
  | None => true
  end.

Definition has_id (u : update) : bool :=
  match update_id u with Some _ => true | None => false end.

(** The poll of an iteration brings only updates with an identifier and a
    safe text. *)
Definition safe_inputs (i : inputs) : bool :=
  forallb has_id (updates_of (poll i))
  && forallb safe_update (updates_of (poll i)).

(** The groups the pattern finds in the text of an update, if it has a
    text and the pattern matches it. *)
Definition command_of (u : update) : option (text * text) :=
  match message u with
  | Some msg =>
      match text_field msg with
      | Some raw => re_match (strip raw)
      | None => None
      end
  | None => None
  end.

(** The machine after an update that only moves the cursor. *)
Definition cursor_moved (i : Z) (m : machine) : machine :=
  {| mem := {| lower_limit := lower_limit (mem m);
               upper_limit := upper_limit (mem m);
               alert_sent := alert_sent (mem m);
               last_update_id := Some (i + 1)%Z;
               current_update_id := Some i |};
     trace := trace m |}.

(** Every exception [c] can raise satisfies [P]. *)
Definition raises_only (P : exn -> Prop) {A} (c : M A) : Prop :=
  forall m e m', c m = Raise e m' -> P e.

(** ** Kinds of events *)

(** Events of the loop itself: the poll, its console lines, the pauses. *)
Definition loop_event (e : event) : bool :=
  match e with
  | GetUpdates _ | Sleep _
  | PrintLine ErrorFetchingUpdates | PrintLine (ReceivedUpdates _) => true
  | _ => false
  end.

(** Events of an accepted command. *)
Definition command_event (e : event) : bool :=
  match e with
  | SendMessage (LimitsUpdated _ _) | PrintLine (LimitsUpdatedLine _ _) => true
  | _ => false
  end.

(** Events of a price check. *)
Definition price_event (e : event) : bool :=
  match e with
  | GetAmountsOut | SendMessage (Alert _)
  | PrintLine (CurrentPrice _) | PrintLine OutOfLimits | PrintLine BackInLimits
  | PrintLine UnableToRetrievePrice | PrintLine ErrorFetchingPrice => true
  | _ => false
  end.

Definition iteration_event (e : event) : bool :=
  loop_event e || command_event e || price_event e.

Definition is_nil_updates (l : list update) : bool :=
  match l with [] => true | _ => false end.

(** Seconds slept in a trace. *)
Definition slept (t : list event) : Z :=
  fold_right (fun e acc => match e with Sleep s => s + acc | _ => acc end)%Z
             0%Z t.

(** From [m] to [m'] the trace grew by events of a given kind. *)
Definition emitted (kind : event -> bool) (m m' : machine) : Prop :=
  exists t, trace m' = trace m ++ t /\ forallb kind t = true.

(** ** Invariants of the variables *)

(** The limits that are set are numbers (no NaN). *)
Definition limits_are_numbers (v : vars) : Prop :=
  match lower_limit v with Some f => is_nan f = false | None => True end
  /\ match upper_limit v with Some f => is_nan f = false | None => True end.

(** The alert flag is raised only with limits set. *)
Definition alert_needs_limits (v : vars) : Prop :=
  alert_sent v = true -> configured v = true.

Definition keeps_alert_needs_limits (m m' : machine) : Prop :=
  alert_needs_limits (mem m) -> alert_needs_limits (mem m').

Definition keeps_limits_numbers (m m' : machine) : Prop :=
  limits_are_numbers (mem m) -> limits_are_numbers (mem m').

(** A float that is zero or a positive finite number. *)
Definition finite_nonneg (f : float) : bool :=
  match f with
  | S754_zero false | S754_finite false _ _ => true
  | _ => false
  end.

(** The prices a list of router answers yields, failures left out. *)
Definition observed_prices (qs : list quote_response) : list float :=
  flat_map (fun q => match quoted_price q with Ok p => [p] | Err _ => [] end) qs.

(** ** Proof automation *)

(** Reads the fields of an outcome that is given explicitly. *)
Ltac simpl_outcome :=
  cbn [final returns mem trace with_alert_sent lower_limit upper_limit
       alert_sent last_update_id current_update_id].

(** Runs the monad's primitives on the machine at hand. *)
Ltac run_primitives :=
  cbv [bind lift ret raise emit read update_vars set_limits set_alert_sent
       set_last_update_id set_current_update_id send_telegram_text
       send_telegram_alert read_current_update_id];
  cbn [mem trace lower_limit upper_limit alert_sent last_update_id
       current_update_id final returns].

(** * Properties *)

(** ** Floats: order facts *)

Lemma SFcompare_antisym (a b : float) (c : comparison) :
  SFcompare a b = Some c -> SFcompare b a = Some (CompOpp c).
Proof.
  destruct a as [sa|sa| |sa ma ea], b as [sb|sb| |sb mb eb]; simpl;
    try discriminate;
    try (intros H; injection H as <-;
         repeat match goal with s : bool |- _ => destruct s end; reflexivity).
  intros H; injection H as <-.
  destruct sa, sb; try reflexivity;
    rewrite (Z.compare_antisym ea eb);
    destruct (ea ?= eb)%Z eqn:E; simpl; try reflexivity;
    rewrite !Pos.compare_cont_spec; simpl;
    rewrite (Pos.compare_antisym ma mb);
    destruct (ma ?= mb)%positive; reflexivity.
Qed.

Lemma SFcompare_defined (a b : float) :
  is_nan a = false -> is_nan b = false -> exists c, SFcompare a b = Some c.
Proof.
  destruct a, b; simpl; intros; try discriminate; eauto.
Qed.

Lemma SFcompare_refl (a : float) :
  is_nan a = false -> SFcompare a a = Some Eq.
Proof.
  destruct a as [s|s| |s m e]; simpl; intros; try discriminate;
    try (destruct s; reflexivity).
  destruct s; rewrite Z.compare_refl, Pos.compare_cont_refl; reflexivity.
Qed.

(** Without NaNs, [a < b] is the negation of [b <= a]. *)
Lemma lt_not_le (a b : float) :
  is_nan a = false -> is_nan b = false -> lt a b = negb (le b a).
Proof.
  intros Ha Hb. unfold lt, le, SFltb, SFleb.
  destruct (SFcompare_defined a b Ha Hb) as [c Hc].
  rewrite Hc, (SFcompare_antisym _ _ Hc). destruct c; reflexivity.
Qed.

(** The floats the script computes are numbers: a quotient of two integers
    is never a NaN. *)
Lemma shr_1_nonneg mrs : (0 <= shr_m mrs -> 0 <= shr_m (shr_1 mrs))%Z.
Proof.
  destruct mrs as [m r s]. cbn [shr_m]. intros H.
  destruct m as [|p|p]; [cbn; lia | destruct p; cbn; lia | lia].
Qed.

Lemma iter_shr_1_nonneg n : forall mrs,
  (0 <= shr_m mrs -> 0 <= shr_m (iter_pos shr_1 n mrs))%Z.
Proof.
  induction n as [n IH|n IH|]; intros mrs H; cbn [iter_pos];
    auto using shr_1_nonneg.
Qed.

Lemma shr_record_of_loc_m m l : shr_m (shr_record_of_loc m l) = m.
Proof. destruct l as [|[]]; reflexivity. Qed.

Lemma shr_fexp_nonneg m e l :
  (0 <= m -> 0 <= shr_m (fst (shr_fexp prec emax m e l)))%Z.
Proof.
  intros H. unfold shr_fexp, shr.
  destruct (fexp prec emax (Zdigits2 m + e) - e)%Z; cbn [fst];
    try apply iter_shr_1_nonneg; now rewrite shr_record_of_loc_m.
Qed.

Lemma round_nearest_even_nonneg m l :
  (0 <= m -> 0 <= round_nearest_even m l)%Z.
Proof.
  intros H. destruct l as [|[]]; cbn; try destruct (Z.even m); lia.
Qed.

Lemma binary_round_aux_not_nan s m e l :
  (0 <= m)%Z -> is_nan (binary_round_aux prec emax s m e l) = false.
Proof.
  intros H. unfold binary_round_aux.
  pose proof (@shr_fexp_nonneg m e l H) as H1.
  destruct (shr_fexp prec emax m e l) as [mrs' e']. cbn [fst] in H1.
  pose proof (@shr_fexp_nonneg _ e' loc_Exact
                (@round_nearest_even_nonneg _ (loc_of_shr_record mrs') H1)) as H2.
  destruct (shr_fexp prec emax _ e' loc_Exact) as [mrs'' e'']. cbn [fst] in H2.
  destruct (shr_m mrs''); try lia; try reflexivity.
  destruct (e'' <=? emax - prec)%Z; reflexivity.
Qed.

Lemma of_quotient_not_nan neg n d : is_nan (of_quotient neg n d) = false.
Proof.
  unfold of_quotient, SFdiv, SFdiv_core_binary.
  set (e' := Z.min _ _).
  set (m' := match (0 - 0 - e')%Z with Zpos _ => _ | _ => _ end).
  assert (0 <= m')%Z as Hm.
  { unfold m'. destruct (0 - 0 - e')%Z; try lia. apply Z.shiftl_nonneg. lia. }
  pose proof (Z_div_mod m' (Zpos d) eq_refl) as Hd.
  destruct (Z.div_eucl m' (Zpos d)) as [q r].
  apply binary_round_aux_not_nan. nia.
Qed.

Lemma int_truediv_not_nan a b f : int_truediv a b = Ok f -> is_nan f = false.
Proof.
  unfold int_truediv.
  destruct a as [|n|n], b as [|d|d]; try discriminate;
    try (intros H; injection H as <-; reflexivity);
    match goal with |- context [of_quotient ?s n d] =>
      pose proof (of_quotient_not_nan s n d) as N;
      destruct (of_quotient s n d); try discriminate;
      intros H; injection H as <-; exact N
    end.
Qed.

(** The test of line 200 is the complement of the closed interval. *)
Lemma out_of_limits_not_in_range (lower upper price : float) :
  is_nan lower = false -> is_nan upper = false -> is_nan price = false ->
  lt price lower || gt price upper = negb (in_range lower upper price).
Proof.
  intros Hl Hu Hp. unfold gt, in_range.
  change (SFltb upper price) with (lt upper price).
  rewrite (lt_not_le price lower Hp Hl), (lt_not_le upper price Hu Hp).
  now rewrite negb_andb.
Qed.

(** ** [evaluate], case by case *)

Lemma evaluate_breach_armed lower upper price m :
  lt price lower || gt price upper = true ->
  alert_sent (mem m) = false ->
  evaluate lower upper price m =
  Ret tt {| mem := with_alert_sent true (mem m);
            trace := (trace m ++ [SendMessage (Alert price)]) ++ [PrintLine OutOfLimits] |}.
Proof.
  intros Hout Hs. unfold evaluate. rewrite Hout.
  unfold bind, read. rewrite Hs. reflexivity.
Qed.

Lemma evaluate_breach_alerting lower upper price m :
  lt price lower || gt price upper = true ->
  alert_sent (mem m) = true ->
  evaluate lower upper price m = Ret tt m.
Proof.
  intros Hout Hs. unfold evaluate. rewrite Hout.
  unfold bind, read. rewrite Hs. reflexivity.
Qed.

Lemma evaluate_inside_armed lower upper price m :
  lt price lower || gt price upper = false ->
  alert_sent (mem m) = false ->
  evaluate lower upper price m =
  Ret tt {| mem := with_alert_sent false (mem m); trace := trace m |}.
Proof.
  intros Hout Hs. unfold evaluate. rewrite Hout.
  unfold bind, read. rewrite Hs. reflexivity.
Qed.

Lemma evaluate_inside_alerting lower upper price m :
  lt price lower || gt price upper = false ->
  alert_sent (mem m) = true ->
  evaluate lower upper price m =
  Ret tt {| mem := with_alert_sent false (mem m);
            trace := trace m ++ [PrintLine BackInLimits] |}.
Proof.
  intros Hout Hs. unfold evaluate. rewrite Hout.
  unfold bind, read. rewrite Hs. reflexivity.
Qed.

Lemma with_alert_sent_same v : with_alert_sent (alert_sent v) v = v.
Proof. destruct v; reflexivity. Qed.

(** Every call of [evaluate] returns; it touches [alert_sent] only, and it
    sends an alert exactly when the flag goes from false to true. *)
Lemma evaluate_effect lower upper price m :
  exists b t,
    evaluate lower upper price m =
      Ret tt {| mem := with_alert_sent b (mem m); trace := trace m ++ t |}
    /\ alerts t = (if negb (alert_sent (mem m)) && b then 1 else 0)%nat.
Proof.
  destruct (lt price lower || gt price upper) eqn:Hout;
    destruct (alert_sent (mem m)) eqn:Hs.
  - exists true, []. rewrite evaluate_breach_alerting by assumption.
    split; [|reflexivity]. rewrite app_nil_r, <- Hs, with_alert_sent_same.
    now destruct m.
  - exists true, [SendMessage (Alert price); PrintLine OutOfLimits].
    rewrite evaluate_breach_armed by assumption.
    rewrite <- app_assoc. auto.
  - exists false, [PrintLine BackInLimits].
    rewrite evaluate_inside_alerting by assumption. auto.
  - exists false, []. rewrite evaluate_inside_armed by assumption.
    rewrite app_nil_r. auto.
Qed.


Lemma alerts_app t1 t2 : alerts (t1 ++ t2) = (alerts t1 + alerts t2)%nat.
Proof. unfold alerts. now rewrite filter_app, length_app. Qed.

Lemma monitor_of_configured v lower upper :
  lower_limit v = Some lower -> upper_limit v = Some upper ->
  monitor_of v = if alert_sent v then Alerting else Armed.
Proof. intros Hl Hu. unfold monitor_of, configured. now rewrite Hl, Hu. Qed.

(** In a list of states that are never [Unconfigured], two entries into
    [Alerting] have a return to [Armed] between them. *)
Lemma return_between_entries (h : list monitor_state) :
  Forall (fun s => s <> Unconfigured) h ->
  forall d i j, (j = S i + S d)%nat ->
    nth_error h (S i) = Some Alerting ->
    nth_error h j = Some Armed ->
    exists k, (i < k < j)%nat
              /\ nth_error h k = Some Alerting
              /\ nth_error h (S k) = Some Armed.
Proof.
  intros Hh. induction d as [|d IH]; intros i j -> Hi Hj.
  - exists (S i). replace (S i + 1)%nat with (S (S i)) in * by lia.
    split; [lia | auto].
  - destruct (nth_error h (S (S i))) as [s|] eqn:Hn.
    + destruct s.
      * exfalso. apply nth_error_In in Hn.
        rewrite Forall_forall in Hh. now apply (Hh _ Hn).
      * exists (S i). split; [lia | auto].
      * destruct (IH (S i) (S i + S (S d))%nat) as (k & Hk & Hk1 & Hk2);
          [lia | assumption | assumption |].
        exists k. split; [lia | auto].
    + exfalso. apply nth_error_None in Hn.
      assert (nth_error h (S i + S (S d)) <> None) as Hne by congruence.
      apply nth_error_Some in Hne. lia.
Qed.

Lemma monitor_history_configured lower upper prices : forall m,
  lower_limit (mem m) = Some lower -> upper_limit (mem m) = Some upper ->
  Forall (fun s => s <> Unconfigured) (monitor_history lower upper prices m).
Proof.
  induction prices as [|p ps IH]; intros m Hl Hu; simpl.
  - constructor; [|constructor].
    rewrite (monitor_of_configured _ Hl Hu). destruct (alert_sent (mem m)); discriminate.
  - constructor.
    + rewrite (monitor_of_configured _ Hl Hu). destruct (alert_sent (mem m)); discriminate.
    + destruct (evaluate_effect lower upper p m) as (b & t & -> & _).
      apply IH; assumption.
Qed.

Lemma evaluate_all_counts lower upper prices : forall m,
  lower_limit (mem m) = Some lower -> upper_limit (mem m) = Some upper ->
  returns (evaluate_all lower upper prices m) = true
  /\ alerts (trace (final (evaluate_all lower upper prices m))) =
     (alerts (trace m)
      + transitions Armed Alerting (monitor_history lower upper prices m))%nat.
Proof.
  induction prices as [|p ps IH]; intros m Hl Hu.
  - simpl. split; [reflexivity | lia].
  - unfold evaluate_all in *. cbn [for_each monitor_history]. unfold bind.
    destruct (evaluate_effect lower upper p m) as (b & t & E & Ht).
    rewrite E. cbn [final].
    set (m1 := {| mem := with_alert_sent b (mem m); trace := trace m ++ t |}).
    destruct (IH m1 Hl Hu) as [Hr Hc]. split; [exact Hr|].
    rewrite Hc. unfold m1 at 1. cbn [trace]. rewrite alerts_app, Ht.
    cbn [transitions].
    destruct ps as [|q qs]; cbn [monitor_history];
      rewrite (monitor_of_configured _ Hl Hu);
      rewrite (monitor_of_configured (mem m1) Hl Hu);
      unfold m1; cbn [mem with_alert_sent alert_sent];
      destruct (alert_sent (mem m)), b; simpl; lia.
Qed.

(** C1. Under fixed configured limits, a run of evaluations over any
    sequence of prices returns, and the number of alert notifications it
    sends is the number of Armed-to-Alerting transitions of the monitor;
    an evaluation in state Alerting sends no alert, and leaves the state
    Alerting when the price is still out of limits; between two
    transitions into Alerting there is one back to Armed. *)
Theorem alerts_equal_armed_to_alerting_transitions
  (lower upper : float) (prices : list float) (m : machine) :
  lower_limit (mem m) = Some lower ->
  upper_limit (mem m) = Some upper ->
  let o := evaluate_all lower upper prices m in
  let h := monitor_history lower upper prices m in
  returns o = true
  /\ alerts (trace (final o)) =
     (alerts (trace m) + transitions Armed Alerting h)%nat
  /\ (forall price,
        monitor_of (mem m) = Alerting ->
        let o1 := evaluate lower upper price m in
        returns o1 = true
        /\ alerts (trace (final o1)) = alerts (trace m)
        /\ (lt price lower || gt price upper = true -> o1 = Ret tt m))
  /\ (forall i j, (i < j)%nat ->
        nth_error h i = Some Armed -> nth_error h (S i) = Some Alerting ->
        nth_error h j = Some Armed -> nth_error h (S j) = Some Alerting ->
        exists k, (i < k < j)%nat
                  /\ nth_error h k = Some Alerting
                  /\ nth_error h (S k) = Some Armed).
Proof.
  intros Hl Hu o h.
  destruct (evaluate_all_counts prices m Hl Hu) as [Hr Hc].
  split; [exact Hr | split; [exact Hc | split]].
  - intros price HA o1.
    rewrite (monitor_of_configured _ Hl Hu) in HA.
    destruct (alert_sent (mem m)) eqn:Hs; [|discriminate].
    destruct (evaluate_effect lower upper price m) as (b & t & E & Ht).
    subst o1. split; [|split].
    + rewrite E. reflexivity.
    + rewrite E. cbn [final trace]. rewrite alerts_app, Ht, Hs. simpl. lia.
    + intros Hout. now apply evaluate_breach_alerting.
  - intros i j Hij Hi Hi1 Hj Hj1.
    assert (S i <> j) as Hne by (intros E; rewrite E in Hi1; congruence).
    apply (@return_between_entries h
             (monitor_history_configured prices m Hl Hu)
             (j - S (S i))%nat i j); [lia | assumption | assumption].
Qed.

(** ** Concrete values used in the examples *)

(** Limits 0.5 and 2.0, prices 1.0, 0.4, 0.3, 0.6: one alert, at 0.4. *)
Example scenario_one_alert :
  evaluate_all (fl "0.5") (fl "2.0") [fl "1.0"; fl "0.4"; fl "0.3"; fl "0.6"]
    (configured_machine (fl "0.5") (fl "2.0") false)
  = Ret tt {| mem := mem (configured_machine (fl "0.5") (fl "2.0") false);
              trace := [SendMessage (Alert (fl "0.4")); PrintLine OutOfLimits;
                        PrintLine BackInLimits] |}.
Proof. vm_compute. reflexivity. Qed.

Lemma alerts_equal_armed_to_alerting_transitions_witness :
  let m := configured_machine (fl "0.5") (fl "2.0") false in
  let prices := [fl "1.0"; fl "0.4"; fl "0.3"; fl "0.6"] in
  alerts (trace (final (evaluate_all (fl "0.5") (fl "2.0") prices m))) =
  (alerts (trace m)
   + transitions Armed Alerting (monitor_history (fl "0.5") (fl "2.0") prices m))%nat.
Proof.
  intros m prices.
  exact (proj1 (proj2 (@alerts_equal_armed_to_alerting_transitions
                         (fl "0.5") (fl "2.0") prices m eq_refl eq_refl))).
Defined.

(** C6. In state Armed, with limits and price that are numbers, [evaluate]
    returns; it moves to Alerting and sends exactly one alert if and only if
    the price is outside the closed interval of the limits, and otherwise
    stays Armed and sends nothing.  A price equal to the lower or to the
    upper limit of a non-empty interval is inside. *)
Theorem armed_alerts_iff_outside_closed_interval
  (lower upper price : float) (m : machine) :
  is_nan lower = false -> is_nan upper = false -> is_nan price = false ->
  lower_limit (mem m) = Some lower ->
  upper_limit (mem m) = Some upper ->
  monitor_of (mem m) = Armed ->
  let o := evaluate lower upper price m in
  returns o = true
  /\ (in_range lower upper price = false ->
        monitor_of (mem (final o)) = Alerting
        /\ trace (final o) =
           trace m ++ [SendMessage (Alert price); PrintLine OutOfLimits])
  /\ (in_range lower upper price = true ->
        monitor_of (mem (final o)) = Armed /\ trace (final o) = trace m)
  /\ ((monitor_of (mem (final o)) = Alerting
       /\ alerts (trace (final o)) = S (alerts (trace m)))
      <-> in_range lower upper price = false)
  /\ (le lower upper = true -> price = lower \/ price = upper ->
        monitor_of (mem (final o)) = Armed /\ trace (final o) = trace m).
Proof.
  intros Nl Nu Np Hl Hu HA o.
  rewrite (monitor_of_configured _ Hl Hu) in HA.
  destruct (alert_sent (mem m)) eqn:Hs; [discriminate|].
  pose proof (out_of_limits_not_in_range lower upper price Nl Nu Np) as Hout.
  assert (Hin : in_range lower upper price = true ->
                monitor_of (mem (final o)) = Armed /\ trace (final o) = trace m).
  { intros Hi. rewrite Hi in Hout. subst o.
    rewrite (evaluate_inside_armed _ _ _ _ Hout Hs). cbn [final mem trace].
    split; [|reflexivity].
    now rewrite (@monitor_of_configured _ lower upper). }
  assert (Hbr : in_range lower upper price = false ->
                monitor_of (mem (final o)) = Alerting
                /\ trace (final o) =
                   trace m ++ [SendMessage (Alert price); PrintLine OutOfLimits]).
  { intros Hi. rewrite Hi in Hout. subst o.
    rewrite (evaluate_breach_armed _ _ _ _ Hout Hs). cbn [final mem trace].
    split; [|now rewrite <- app_assoc].
    now rewrite (@monitor_of_configured _ lower upper). }
  split; [|split; [exact Hbr | split; [exact Hin | split]]].
  - destruct (evaluate_effect lower upper price m) as (b & t & E & _).
    subst o. now rewrite E.
  - split.
    + intros [HAl _]. destruct (in_range lower upper price) eqn:Hi; [|reflexivity].
      destruct (Hin eq_refl) as [HAr _]. congruence.
    + intros Hi. destruct (Hbr Hi) as [HAl Ht]. split; [exact HAl|].
      rewrite Ht, alerts_app.
      change (alerts [SendMessage (Alert price); PrintLine OutOfLimits]) with 1%nat.
      lia.
  - intros Hle Heq. apply Hin. unfold in_range, le in *.
    destruct Heq as [-> | ->].
    + unfold SFleb at 1. rewrite (SFcompare_refl _ Nl). now rewrite Hle.
    + rewrite Hle. unfold SFleb. now rewrite (SFcompare_refl _ Nu).
Qed.

Lemma armed_alerts_iff_outside_closed_interval_witness :
  let m := configured_machine (fl "0.5") (fl "2.0") false in
  let o := evaluate (fl "0.5") (fl "2.0") (fl "0.5") m in
  monitor_of (mem (final o)) = Armed /\ trace (final o) = trace m.
Proof.
  intros m o.
  refine (proj2 (proj2 (proj2 (proj2
    (@armed_alerts_iff_outside_closed_interval
       (fl "0.5") (fl "2.0") (fl "0.5") m
       eq_refl eq_refl eq_refl eq_refl eq_refl eq_refl)))) _ _).
  - vm_compute. reflexivity.
  - left. reflexivity.
Defined.

(** ** Texts: the pattern and the float literals *)

Lemma space_not_numchar c : is_space c = true -> is_numchar c = false.
Proof.
  unfold is_space. intros H. apply existsb_exists in H.
  destruct H as [x [Hin Hx]]. apply N.eqb_eq in Hx. subst x.
  unfold space_points in Hin. simpl in Hin.
  repeat (destruct Hin as [<- | Hin]; [vm_compute; reflexivity|]).
  contradiction.
Qed.

Lemma numchar_not_space c : is_numchar c = true -> is_space c = false.
Proof.
  intros H. destruct (is_space c) eqn:E; [|reflexivity].
  apply space_not_numchar in E. congruence.
Qed.

Lemma digit_not_dot c : is_digit c = true -> is_dot c = false.
Proof.
  intros H. unfold is_dot.
  destruct (N.eqb_spec c 46) as [-> |]; [|reflexivity].
  vm_compute in H. discriminate.
Qed.

Lemma span_spec p : forall s a b,
  span p s = (a, b) -> s = (a ++ b)%list /\ forallb p a = true /\ stops p b.
Proof.
  induction s as [|c r IH]; simpl; intros a b E.
  - injection E as <- <-. simpl. auto.
  - destruct (p c) eqn:Hc.
    + destruct (span p r) as [a' b'] eqn:Er. injection E as <- <-.
      destruct (IH _ _ eq_refl) as (-> & Ha & Hb).
      cbn [forallb app]. rewrite Hc, Ha. auto.
    + injection E as <- <-. simpl. auto.
Qed.

Lemma span_app p : forall a b,
  forallb p a = true -> stops p b -> span p (a ++ b) = (a, b).
Proof.
  induction a as [|c a IH]; simpl; intros b Ha Hb.
  - destruct b as [|c b]; [reflexivity|]. simpl in *. now rewrite Hb.
  - apply andb_true_iff in Ha as [Hc Ha]. now rewrite Hc, IH.
Qed.

Lemma drop_literal_app : forall lit s, drop_literal lit (lit ++ s) = Some s.
Proof.
  induction lit as [|a lit IH]; simpl; intros s.
  - reflexivity.
  - now rewrite N.eqb_refl.
Qed.

Lemma drop_literal_spec : forall lit s r,
  drop_literal lit s = Some r -> s = (lit ++ r)%list.
Proof.
  induction lit as [|a lit IH]; simpl; intros s r E.
  - now injection E as ->.
  - destruct s as [|c s]; [discriminate|].
    destruct (N.eqb a c) eqn:Hac; [|discriminate].
    apply N.eqb_eq in Hac as ->. now rewrite (IH _ _ E).
Qed.

Lemma lstrip_stops s : stops is_space s -> lstrip s = s.
Proof. destruct s as [|c r]; simpl; [reflexivity|]. now intros ->. Qed.

Lemma lstrip_app : forall pad s,
  forallb is_space pad = true -> stops is_space s -> lstrip (pad ++ s) = s.
Proof.
  induction pad as [|c pad IH]; simpl; intros s Hp Hs.
  - now apply lstrip_stops.
  - apply andb_true_iff in Hp as [Hc Hp]. now rewrite Hc, IH.
Qed.

Lemma forallb_rev (p : char -> bool) (s : text) :
  forallb p (rev s) = forallb p s.
Proof.
  induction s as [|c s IH]; simpl; [reflexivity|].
  rewrite forallb_app, IH. simpl. rewrite andb_true_r. apply andb_comm.
Qed.

(** [strip] removes white space around a text that neither starts nor ends
    with white space. *)
Lemma strip_padded pad1 core pad2 :
  forallb is_space pad1 = true -> forallb is_space pad2 = true ->
  core <> [] -> stops is_space core -> stops is_space (rev core) ->
  strip (pad1 ++ core ++ pad2) = core.
Proof.
  intros H1 H2 Hne Hh Hl. unfold strip, rstrip.
  rewrite lstrip_app; auto.
  - rewrite rev_app_distr, lstrip_app, rev_involutive; auto.
    now rewrite forallb_rev.
  - destruct core; [congruence | exact Hh].
Qed.

Lemma stops_app_l p (a b : text) : a <> [] -> stops p a -> stops p (a ++ b).
Proof. destruct a; [congruence | auto]. Qed.

Lemma blank_spec ws :
  blank ws = true -> ws <> [] /\ forallb is_space ws = true.
Proof.
  unfold blank. intros H. apply andb_true_iff in H as [Hn Hs].
  split; [|exact Hs]. destruct ws; [discriminate | congruence].
Qed.

Lemma numchars_stop_space g :
  forallb is_numchar g = true -> stops is_space g.
Proof.
  destruct g as [|c g]; simpl; [auto|].
  intros H. apply andb_true_iff in H as [Hc _]. now apply numchar_not_space.
Qed.

Lemma spaces_stop_numchar ws :
  forallb is_space ws = true -> stops is_numchar ws.
Proof.
  destruct ws as [|c ws]; simpl; [auto|].
  intros H. apply andb_true_iff in H as [Hc _]. now apply space_not_numchar.
Qed.

Lemma is_nil_false (s : text) : s <> [] -> is_nil s = false.
Proof. destruct s; [congruence | reflexivity]. Qed.

(** Completeness of the matcher: a text made of the keyword, white space, a
    run of digits and dots, white space, and a run of digits and dots
    matches, with these two runs as groups. *)
Lemma re_match_complete ws1 g1 ws2 g2 :
  blank ws1 = true -> blank ws2 = true ->
  g1 <> [] -> forallb is_numchar g1 = true ->
  g2 <> [] -> forallb is_numchar g2 = true ->
  re_match (keyword ++ ws1 ++ g1 ++ ws2 ++ g2) = Some (g1, g2).
Proof.
  intros B1 B2 N1 C1 N2 C2.
  apply blank_spec in B1 as [W1 S1]. apply blank_spec in B2 as [W2 S2].
  unfold re_match. rewrite drop_literal_app.
  rewrite (span_app is_space ws1 (g1 ++ ws2 ++ g2)) by
    (auto using stops_app_l, numchars_stop_space).
  rewrite (span_app is_numchar g1 (ws2 ++ g2)) by
    (auto using stops_app_l, spaces_stop_numchar).
  rewrite (span_app is_space ws2 g2) by (auto using numchars_stop_space).
  rewrite <- (app_nil_r g2) at 1.
  rewrite (span_app is_numchar g2 []) by (simpl; auto).
  now rewrite !is_nil_false by assumption.
Qed.

(** Soundness of the matcher: the groups of a match are non-empty runs of
    digits and dots, placed in the text as the pattern says. *)
Lemma re_match_sound s g1 g2 :
  re_match s = Some (g1, g2) ->
  exists ws1 ws2 tail,
    s = (keyword ++ ws1 ++ g1 ++ ws2 ++ g2 ++ tail)%list
    /\ blank ws1 = true /\ blank ws2 = true
    /\ g1 <> [] /\ forallb is_numchar g1 = true
    /\ g2 <> [] /\ forallb is_numchar g2 = true
    /\ at_end tail = true.
Proof.
  unfold re_match. destruct (drop_literal keyword s) as [r0|] eqn:E0; [|discriminate].
  apply drop_literal_spec in E0 as ->.
  destruct (span is_space r0) as [ws1 r1] eqn:E1.
  destruct (span is_numchar r1) as [h1 r2] eqn:E2.
  destruct (span is_space r2) as [ws2 r3] eqn:E3.
  destruct (span is_numchar r3) as [h2 r4] eqn:E4.
  apply span_spec in E1 as (-> & S1 & _), E2 as (-> & C1 & _),
    E3 as (-> & S2 & _), E4 as (-> & C2 & _).
  destruct (is_nil ws1) eqn:N1; [discriminate|].
  destruct (is_nil h1) eqn:N2; [discriminate|].
  destruct (is_nil ws2) eqn:N3; [discriminate|].
  destruct (is_nil h2) eqn:N4; [discriminate|].
  destruct (at_end r4) eqn:N5; [|discriminate].
  simpl. intros H. injection H as <- <-.
  exists ws1, ws2, r4. unfold blank. rewrite N1, N3, S1, S2.
  repeat split; auto; intros ->; discriminate.
Qed.

Lemma digits_are_numchars s :
  forallb is_digit s = true -> forallb is_numchar s = true.
Proof.
  induction s as [|c s IH]; simpl; [auto|].
  intros H. apply andb_true_iff in H as [Hc Hs].
  rewrite IH by assumption. unfold is_numchar. now rewrite Hc.
Qed.

Lemma digits_have_no_dot s :
  forallb is_digit s = true -> filter is_dot s = [].
Proof.
  induction s as [|c s IH]; simpl; [auto|].
  intros H. apply andb_true_iff in H as [Hc Hs].
  now rewrite (digit_not_dot _ Hc), IH.
Qed.

Lemma digits_exist s :
  forallb is_digit s = true -> existsb is_digit s = negb (is_nil s).
Proof.
  destruct s as [|c s]; simpl; [auto|].
  intros H. apply andb_true_iff in H as [Hc _]. now rewrite Hc.
Qed.

(** In a run of digits and dots, being all digits is having no dot, and a
    text with no digit at all is all dots. *)
Lemma numchars_digits_or_dots s :
  forallb is_numchar s = true ->
  forallb is_digit s = (List.length (filter is_dot s) =? 0)%nat
  /\ (forallb is_digit s = false -> existsb is_digit s = false ->
      is_nil s = false).
Proof.
  induction s as [|c s IH]; simpl; [intros _; split; [reflexivity | discriminate]|].
  intros H. apply andb_true_iff in H as [Hc Hs].
  destruct (IH Hs) as [IH1 IH2]. split; [|reflexivity].
  unfold is_numchar in Hc. destruct (is_digit c) eqn:Hd.
  - now rewrite (digit_not_dot _ Hd).
  - simpl in Hc. now rewrite Hc.
Qed.

(** On runs of digits and dots, [float] accepts exactly the decimals. *)
Lemma py_float_accepts_decimals s :
  forallb is_numchar s = true -> accepted (py_float s) = decimal s.
Proof.
  intros Hs. unfold py_float, decimal. rewrite Hs. cbn [andb].
  destruct (span is_digit s) as [ip r] eqn:E.
  apply span_spec in E as (-> & Hip & Hr).
  rewrite forallb_app in Hs. apply andb_true_iff in Hs as [_ Hs].
  rewrite existsb_app, filter_app, length_app.
  rewrite (digits_have_no_dot _ Hip), (digits_exist _ Hip). cbn [List.length plus].
  destruct r as [|c fp].
  - cbn [existsb filter List.length]. rewrite orb_false_r, andb_true_r.
    now destruct (is_nil ip).
  - simpl in Hr. cbn [forallb] in Hs. apply andb_true_iff in Hs as [Hc Hfp].
    unfold is_numchar in Hc. rewrite Hr in Hc. cbn [orb] in Hc.
    cbn [existsb filter]. rewrite Hr, Hc. cbn [orb andb List.length].
    destruct (numchars_digits_or_dots _ Hfp) as [D1 D2].
    destruct (forallb is_digit fp) eqn:Hd.
    + symmetry in D1. apply Nat.eqb_eq in D1. rewrite D1.
      rewrite (digits_exist _ Hd). cbn [Nat.leb andb].
      destruct (is_nil ip), (is_nil fp); reflexivity.
    + symmetry in D1. apply Nat.eqb_neq in D1.
      destruct (List.length (filter is_dot fp)) as [|n]; [congruence|].
      cbn [Nat.leb andb]. now rewrite andb_false_r.
Qed.

Lemma decimal_spec s :
  decimal s = true ->
  s <> [] /\ forallb is_numchar s = true /\ exists f, py_float s = Ok f.
Proof.
  intros H. pose proof H as H'. unfold decimal in H'.
  apply andb_true_iff in H' as [H' _]. apply andb_true_iff in H' as [Hn He].
  split; [|split; [exact Hn|]].
  - intros ->. discriminate.
  - rewrite <- (py_float_accepts_decimals _ Hn) in H.
    destruct (py_float s) as [f|e]; [eauto | discriminate].
Qed.

Lemma py_float_rejects s :
  forallb is_numchar s = true -> decimal s = false ->
  py_float s = Err ValueError.
Proof.
  intros Hn Hd. rewrite <- (py_float_accepts_decimals _ Hn) in Hd.
  unfold py_float in *. destruct (span is_digit s) as [ip [|c fp]].
  - destruct (is_nil ip); [reflexivity | discriminate].
  - destruct (is_dot c && forallb is_digit fp && negb (is_nil ip && is_nil fp));
      [discriminate | reflexivity].
Qed.

(** The limits and the prices the script works with are never NaN. *)
Lemma py_float_not_nan s f : py_float s = Ok f -> is_nan f = false.
Proof.
  unfold py_float, decimal_to_float.
  destruct (span is_digit s) as [ip [|c fp]].
  - destruct (is_nil ip); [discriminate|]. intros H. injection H as <-.
    destruct (digits_value ip); auto using of_quotient_not_nan.
  - destruct (is_dot c && forallb is_digit fp && negb (is_nil ip && is_nil fp));
      [|discriminate].
    intros H. injection H as <-.
    destruct (digits_value (ip ++ fp)); auto using of_quotient_not_nan.
Qed.

Lemma quoted_price_not_nan q price :
  quoted_price q = Ok price -> is_nan price = false.
Proof.
  unfold quoted_price. destruct q as [|amounts]; [discriminate|].
  destruct (rev amounts); [discriminate | apply int_truediv_not_nan].
Qed.

(** A text in the grammar is one the matcher accepts, with the two decimals
    as groups; so the grammar determines the decimals. *)
Lemma command_grammar_matches s lower upper :
  command_grammar s lower upper -> re_match s = Some (lower, upper).
Proof.
  intros (ws1 & ws2 & -> & B1 & B2 & D1 & D2).
  apply decimal_spec in D1 as (N1 & C1 & _), D2 as (N2 & C2 & _).
  now apply re_match_complete.
Qed.

(** ** Processing a command text *)

(** The three ways lines 169-184 can go: no match, a match whose groups
    [float] accepts, a match with a group [float] rejects. *)
Lemma apply_command_text_cases raw m :
  match re_match (strip raw) with
  | None => apply_command_text raw m = Ret tt m
  | Some (g1, g2) =>
      match py_float g1, py_float g2 with
      | Ok lo, Ok up => apply_command_text raw m = Ret tt (configured_by lo up m)
      | Ok _, Err e => apply_command_text raw m = Raise e m
      | Err e, _ => apply_command_text raw m = Raise e m
      end
  end.
Proof.
  unfold apply_command_text.
  destruct (re_match (strip raw)) as [[g1 g2]|];
    [|reflexivity].
  destruct (py_float g1) as [lo|e1]; [|reflexivity].
  destruct (py_float g2) as [up|e2]; [|reflexivity].
  unfold configured_by. run_primitives. now rewrite <- app_assoc.
Qed.

(** A text the pattern does not match is dropped: nothing changes. *)
Lemma unmatched_text_dropped raw m :
  re_match (strip raw) = None ->
  apply_command_text raw m = Ret tt m.
Proof.
  intros H. pose proof (apply_command_text_cases raw m) as C.
  now rewrite H in C.
Qed.

(** A text the pattern matches with a group that is no decimal raises
    [ValueError], which nothing catches. *)
Lemma matched_non_decimal_raises raw g1 g2 m :
  re_match (strip raw) = Some (g1, g2) ->
  decimal g1 && decimal g2 = false ->
  apply_command_text raw m = Raise ValueError m.
Proof.
  intros H D. pose proof (apply_command_text_cases raw m) as C.
  rewrite H in C.
  destruct (re_match_sound _ H) as (_ & _ & _ & _ & _ & _ & _ & C1 & _ & C2 & _).
  destruct (decimal g1) eqn:D1.
  - destruct (decimal_spec _ D1) as (_ & _ & lo & E1). rewrite E1 in C.
    simpl in D. now rewrite (py_float_rejects _ C2 D) in C.
  - now rewrite (py_float_rejects _ C1 D1) in C.
Qed.

Lemma keyword_stops_space rest : stops is_space (keyword ++ rest).
Proof. reflexivity. Qed.

Lemma grammar_text_shape body L U :
  command_grammar body L U ->
  body <> [] /\ stops is_space body /\ stops is_space (rev body).
Proof.
  intros (ws1 & ws2 & -> & _ & _ & _ & D2).
  apply decimal_spec in D2 as (N2 & C2 & _).
  split; [discriminate | split; [apply keyword_stops_space|]].
  rewrite !app_assoc, rev_app_distr.
  apply stops_app_l.
  - intros H. apply (f_equal (@rev char)) in H.
    rewrite rev_involutive in H. now apply N2.
  - apply numchars_stop_space. now rewrite forallb_rev.
Qed.

(** C3. A command text [monitor-mps L U] with decimals [L] and [U], with or
    without white space around it, processed in any machine state: the two
    conversions succeed, the limits become exactly their values, the alert
    flag is cleared, the monitor is Armed and a confirmation carrying both
    values is sent; the update that brought the text advances the cursor
    past its identifier. *)
Theorem well_formed_command_arms_monitor
  (raw pad1 body pad2 L U : text) (i : Z) (m : machine) :
  raw = (pad1 ++ body ++ pad2)%list ->
  forallb is_space pad1 = true ->
  forallb is_space pad2 = true ->
  command_grammar body L U ->
  exists lo up,
    py_float L = Ok lo /\ py_float U = Ok up
    /\ apply_command_text raw m = Ret tt (configured_by lo up m)
    /\ monitor_of (mem (configured_by lo up m)) = Armed
    /\ exists m',
         process_update (text_update i raw) m = Ret tt m'
         /\ lower_limit (mem m') = Some lo
         /\ upper_limit (mem m') = Some up
         /\ alert_sent (mem m') = false
         /\ monitor_of (mem m') = Armed
         /\ last_update_id (mem m') = Some (i + 1)%Z
         /\ trace m' = trace m ++ [SendMessage (LimitsUpdated lo up);
                                   PrintLine (LimitsUpdatedLine lo up)].
Proof.
  intros Hraw P1 P2 G.
  destruct (grammar_text_shape G) as (Hne & Hh & Hl).
  pose proof (command_grammar_matches G) as Hm.
  destruct G as (ws1 & ws2 & Hb & _ & _ & D1 & D2).
  destruct (decimal_spec _ D1) as (_ & _ & lo & E1).
  destruct (decimal_spec _ D2) as (_ & _ & up & E2).
  exists lo, up.
  assert (Hs : forall m0, apply_command_text raw m0 = Ret tt (configured_by lo up m0)).
  { intros m0. pose proof (apply_command_text_cases raw m0) as C.
    rewrite Hraw, (strip_padded pad1 pad2 P1 P2 Hne Hh Hl), Hm, E1, E2 in C.
    rewrite Hraw. exact C. }
  split; [exact E1 | split; [exact E2 | split; [apply Hs | split; [reflexivity|]]]].
  unfold process_update, text_update. cbn [update_id message text_field].
  unfold bind at 1 2. unfold set_current_update_id at 1, update_vars at 1.
  rewrite Hs. run_primitives.
  eexists. split; [reflexivity|]. cbn. repeat split.
Qed.

Lemma well_formed_command_arms_monitor_witness :
  exists lo up,
    py_float (txt "1") = Ok lo /\ py_float (txt "2") = Ok up
    /\ apply_command_text (txt " monitor-mps 1 2 ") (configured_machine (fl "0.5") (fl "2.0") true)
       = Ret tt (configured_by lo up (configured_machine (fl "0.5") (fl "2.0") true)).
Proof.
  destruct (@well_formed_command_arms_monitor
              (txt " monitor-mps 1 2 ") (txt " ") (txt "monitor-mps 1 2") (txt " ")
              (txt "1") (txt "2") 5%Z
              (configured_machine (fl "0.5") (fl "2.0") true)
              eq_refl eq_refl eq_refl
              (ex_intro _ (txt " ") (ex_intro _ (txt " ")
                 (conj eq_refl (conj eq_refl (conj eq_refl (conj eq_refl eq_refl)))))))
    as (lo & up & E1 & E2 & E & _).
  exists lo, up. auto.
Defined.

(** C2. The text [monitor-mps 1.2.3 4] is not in the grammar (its first
    argument is no decimal), yet it is not dropped: the pattern matches it,
    [float] raises [ValueError] on ["1.2.3"], no handler catches it and the
    loop ends, whatever the machine state. *)
Theorem numeral_with_two_dots_halts_loop :
  let raw := txt "monitor-mps 1.2.3 4" in
  (forall L U, ~ command_grammar (strip raw) L U)
  /\ re_match (strip raw) = Some (txt "1.2.3", txt "4")
  /\ (forall m, apply_command_text raw m = Raise ValueError m)
  /\ returns (main [ {| poll := PollJson (Some [text_update 5 raw]);
                        quote := QuoteException |} ] initial) = false.
Proof.
  intros raw.
  assert (Hm : re_match (strip raw) = Some (txt "1.2.3", txt "4")) by reflexivity.
  split; [|split; [exact Hm | split]].
  - intros L U G. pose proof (command_grammar_matches G) as Hm'.
    destruct G as (_ & _ & _ & _ & _ & D1 & _).
    rewrite Hm in Hm'. injection Hm' as <- <-. discriminate.
  - intros m. apply (matched_non_decimal_raises raw m Hm). reflexivity.
  - reflexivity.
Qed.

(** ** Relations every step of the script respects *)

Section Respects.

Variable R : machine -> machine -> Prop.
Hypothesis R_refl : forall m, R m m.
Hypothesis R_trans : forall a b c, R a b -> R b c -> R a c.

Lemma respects_ret {A} (a : A) : respects R (ret a).
Proof. intros m. apply R_refl. Qed.

Lemma respects_raise {A} (e : exn) : respects R (@raise A e).
Proof. intros m. apply R_refl. Qed.

Lemma respects_read {A} (f : vars -> A) : respects R (read f).
Proof. intros m. apply R_refl. Qed.

Lemma respects_lift {A} (r : result A) : respects R (lift r).
Proof. destruct r; [apply respects_ret | apply respects_raise]. Qed.

Lemma respects_bind {A B} (c : M A) (k : A -> M B) :
  respects R c -> (forall a, respects R (k a)) -> respects R (bind c k).
Proof.
  intros Hc Hk m. unfold bind. specialize (Hc m).
  destruct (c m) as [a m'|e m']; cbn [final] in *.
  - apply (R_trans Hc), Hk.
  - exact Hc.
Qed.

Lemma respects_for_each {A} (body : A -> M unit) (l : list A) :
  (forall x, respects R (body x)) -> respects R (for_each body l).
Proof.
  intros Hb. induction l as [|x l IH]; cbn [for_each].
  - apply respects_ret.
  - apply respects_bind; auto.
Qed.

(** What is left to check for a given relation: the primitive steps. *)
Hypothesis R_emit_command : forall e,
  match e with
  | GetAmountsOut | PrintLine (CurrentPrice _) | SendMessage (Alert _) => False
  | _ => True
  end -> respects R (emit e).
Hypothesis R_set_limits : forall lo up, respects R (set_limits lo up).
Hypothesis R_set_alert_sent : forall b, respects R (set_alert_sent b).
Hypothesis R_set_last : forall i, respects R (set_last_update_id i).
Hypothesis R_set_current : forall i, respects R (set_current_update_id i).

Lemma respects_apply_command_text raw : respects R (apply_command_text raw).
Proof.
  unfold apply_command_text.
  destruct (re_match _) as [[g1 g2]|]; [|apply respects_ret].
  repeat (apply respects_bind; [|intros ?]);
    auto using respects_lift; apply R_emit_command; exact I.
Qed.

Lemma respects_process_update upd : respects R (process_update upd).
Proof.
  unfold process_update, read_current_update_id.
  destruct (update_id upd); [|apply respects_ret].
  apply respects_bind; [auto | intros _].
  apply respects_bind; [|intros _; apply respects_bind; [|auto]].
  - destruct (message upd) as [msg|]; [|apply respects_ret].
    destruct (text_field msg); [|apply respects_ret].
    apply respects_apply_command_text.
  - apply respects_bind; [apply respects_read | intros c].
    destruct c; [apply respects_ret | apply respects_raise].
Qed.

Lemma respects_command_phase updates : respects R (command_phase updates).
Proof.
  unfold command_phase. destruct updates as [|u r].
  - apply R_emit_command; exact I.
  - apply respects_bind; [apply R_emit_command; exact I | intros _].
    apply respects_for_each, respects_process_update.
Qed.

Lemma respects_poll_phase r : respects R (poll_phase r).
Proof.
  unfold poll_phase, get_telegram_updates.
  apply respects_bind; [apply respects_read | intros offset].
  apply respects_bind; [|intros updates; apply respects_command_phase].
  apply respects_bind; [apply R_emit_command; exact I | intros _].
  destruct r as [|[updates|]]; try apply respects_ret.
  apply respects_bind; [apply R_emit_command; exact I | intros _].
  apply respects_ret.
Qed.

Hypothesis R_price_phase : forall q, respects R (price_phase q).

Lemma respects_iteration i : respects R (iteration i).
Proof.
  unfold iteration.
  apply respects_bind; [apply respects_poll_phase | intros _].
  apply respects_bind; [apply R_price_phase | intros _].
  apply R_emit_command; exact I.
Qed.

Lemma respects_loop ins : respects R (loop ins).
Proof. apply respects_for_each, respects_iteration. Qed.

Lemma respects_main ins : respects R (main ins).
Proof.
  unfold main, startup, send_telegram_text.
  repeat (apply respects_bind; [|intros _]);
    try (apply R_emit_command; exact I).
  apply respects_loop.
Qed.

End Respects.

(** ** The limits are set together *)

Lemma price_frame_refl m : price_frame m m.
Proof. repeat split. exists []. now rewrite app_nil_r. Qed.

Lemma price_frame_trans a b c :
  price_frame a b -> price_frame b c -> price_frame a c.
Proof.
  intros [[L1 U1] [[C1 D1] [t1 T1]]] [[L2 U2] [[C2 D2] [t2 T2]]].
  repeat split; try congruence.
  exists (t1 ++ t2). now rewrite T2, T1, app_assoc.
Qed.

Lemma price_frame_emit e : respects price_frame (emit e).
Proof. intros m. repeat split. now exists [e]. Qed.

Lemma price_frame_evaluate lower upper price :
  respects price_frame (evaluate lower upper price).
Proof.
  intros m. destruct (evaluate_effect lower upper price m) as (b & t & -> & _).
  repeat split. now exists t.
Qed.

Lemma price_frame_price_phase q : respects price_frame (price_phase q).
Proof.
  pose proof price_frame_refl as Rr. pose proof price_frame_trans as Rt.
  unfold price_phase, get_token_price.
  apply respects_bind; [assumption | now apply respects_read | intros lo].
  apply respects_bind; [assumption | now apply respects_read | intros up].
  destruct lo as [lower|], up as [upper|]; try now apply respects_ret.
  apply respects_bind; [assumption | | intros p].
  - apply respects_bind; [assumption | apply price_frame_emit | intros _].
    destruct (quoted_price q); [now apply respects_ret|].
    apply respects_bind; [assumption | apply price_frame_emit | intros _].
    now apply respects_ret.
  - destruct p as [price|]; [|apply price_frame_emit].
    apply respects_bind; [assumption | apply price_frame_emit | intros _].
    apply price_frame_evaluate.
Qed.

Lemma keeps_paired_main ins : respects keeps_paired (main ins).
Proof.
  apply respects_main; unfold respects, keeps_paired; auto.
  intros q m. destruct (price_frame_price_phase q m) as [[L U] _].
  unfold paired_limits. now rewrite L, U.
Qed.

Lemma keeps_paired_poll_phase r : respects keeps_paired (poll_phase r).
Proof. apply respects_poll_phase; unfold respects, keeps_paired; auto. Qed.

(** C9. After any number of iterations from the start of the script, and at
    the guard of line 193 in the iteration that follows, the two limits are
    both unset or both set: one is [None] exactly when the other is, so the
    guard fails only with both unset. *)
Theorem limits_both_unset_or_both_set (ins : list inputs) (next : inputs) :
  let after := final (main ins initial) in
  let at_guard := final ((main ins ;; poll_phase (poll next)) initial) in
  paired_limits (mem initial) = true
  /\ paired_limits (mem after) = true
  /\ paired_limits (mem at_guard) = true
  /\ (lower_limit (mem at_guard) = None <-> upper_limit (mem at_guard) = None)
  /\ (configured (mem at_guard) = false ->
      lower_limit (mem at_guard) = None /\ upper_limit (mem at_guard) = None).
Proof.
  intros after at_guard.
  assert (Ha : paired_limits (mem after) = true)
    by (apply (keeps_paired_main ins initial); reflexivity).
  assert (Hg : paired_limits (mem at_guard) = true).
  { assert (respects keeps_paired (main ins ;; poll_phase (poll next))) as Hr.
    { apply respects_bind.
      - unfold keeps_paired; auto.
      - apply keeps_paired_main.
      - intros _. apply keeps_paired_poll_phase. }
    apply (Hr initial). reflexivity. }
  split; [reflexivity | split; [exact Ha | split; [exact Hg|]]].
  unfold paired_limits, configured in *.
  destruct (lower_limit (mem at_guard)), (upper_limit (mem at_guard));
    try discriminate; repeat split; auto; discriminate.
Qed.

Lemma limits_both_unset_or_both_set_witness :
  let ins := [ {| poll := PollJson (Some [text_update 5 (txt "monitor-mps 0.5 2.0")]);
                  quote := QuoteAmounts [1; 400000000000000000]%Z |} ] in
  let next := {| poll := PollJson (Some [text_update 6 (txt "monitor-mps 1 3")]);
                 quote := QuoteException |} in
  let at_guard := final ((main ins ;; poll_phase (poll next)) initial) in
  paired_limits (mem at_guard) = true
  /\ (lower_limit (mem at_guard) = None <-> upper_limit (mem at_guard) = None).
Proof.
  intros ins next at_guard.
  destruct (limits_both_unset_or_both_set ins next) as (_ & _ & Hp & Hi & _).
  exact (conj Hp Hi).
Defined.

(** ** Nothing is evaluated while the monitor is unconfigured *)

Lemma quiet_refl m : quiet_while_unconfigured m m.
Proof. exists []. rewrite app_nil_r. auto. Qed.

Lemma quiet_trans a b c :
  quiet_while_unconfigured a b -> quiet_while_unconfigured b c ->
  quiet_while_unconfigured a c.
Proof.
  intros (t1 & T1 & H1) (t2 & T2 & H2). exists (t1 ++ t2). split.
  - now rewrite T2, T1, app_assoc.
  - intros Hc. destruct (H2 Hc) as [Hb Q2]. destruct (H1 Hb) as [Ha Q1].
    split; [exact Ha|]. now rewrite forallb_app, Q1, Q2.
Qed.

Lemma quiet_emit e : quiet e = true -> respects quiet_while_unconfigured (emit e).
Proof.
  intros Q m. exists [e]. split; [reflexivity|]. cbn. rewrite Q. auto.
Qed.

Lemma quiet_update_vars (f : vars -> vars) :
  (forall v, configured (f v) = false -> configured v = false) ->
  respects quiet_while_unconfigured (update_vars f).
Proof.
  intros Hf m. exists []. cbn. rewrite app_nil_r. split; [reflexivity|].
  intros Hc. split; [now apply Hf | reflexivity].
Qed.

Lemma unconfigured_price_phase q m :
  configured (mem m) = false -> price_phase q m = Ret tt m.
Proof.
  unfold configured, price_phase. run_primitives.
  destruct (lower_limit (mem m)), (upper_limit (mem m));
    try discriminate; reflexivity.
Qed.

Lemma quiet_price_phase q : respects quiet_while_unconfigured (price_phase q).
Proof.
  intros m. destruct (configured (mem m)) eqn:Hc.
  - destruct (price_frame_price_phase q m) as ([L U] & _ & [t Ht]).
    exists t. split; [exact Ht|]. unfold configured in *. rewrite L, U, Hc.
    discriminate.
  - rewrite (unconfigured_price_phase q m Hc). apply quiet_refl.
Qed.

Lemma quiet_loop ins : respects quiet_while_unconfigured (loop ins).
Proof.
  apply respects_loop.
  - exact quiet_refl.
  - exact quiet_trans.
  - intros e He. apply quiet_emit. destruct e as [| [] | | [] |]; tauto.
  - intros lo up. apply quiet_update_vars. discriminate.
  - intros b. apply quiet_update_vars. auto.
  - intros i. apply quiet_update_vars. auto.
  - intros i. apply quiet_update_vars. auto.
  - exact quiet_price_phase.
Qed.

(** C8. Whatever the polls and the router answer over any number of
    iterations: if the monitor is Unconfigured at the end, it was so all
    along, and the iterations made no router call, printed no price and
    sent no alert.  In an unconfigured machine the price check is a no-op
    for every answer of the router. *)
Theorem unconfigured_monitor_never_evaluates (ins : list inputs) (m : machine) :
  monitor_of (mem (final (loop ins m))) = Unconfigured ->
  monitor_of (mem m) = Unconfigured
  /\ (exists t, trace (final (loop ins m)) = trace m ++ t
                /\ forallb quiet t = true /\ alerts t = 0%nat)
  /\ (forall q, price_phase q m = Ret tt m).
Proof.
  intros Hu.
  assert (Hc : configured (mem (final (loop ins m))) = false).
  { unfold monitor_of in Hu.
    destruct (configured _); [destruct (alert_sent _); discriminate | reflexivity]. }
  destruct (quiet_loop ins m) as (t & Ht & H). destruct (H Hc) as [Hm Q].
  split; [|split].
  - unfold monitor_of. now rewrite Hm.
  - exists t. repeat split; auto.
    clear - Q. induction t as [|e t IH]; [reflexivity|].
    cbn in Q. apply andb_true_iff in Q as [Qe Qt].
    unfold alerts in *. cbn [filter].
    destruct e as [| [] | | |]; try discriminate; cbn; auto.
  - intros q. now apply unconfigured_price_phase.
Qed.

Lemma unconfigured_monitor_never_evaluates_witness :
  let ins := [ {| poll := PollJson (Some [text_update 5 (txt "monitor-mps abc def")]);
                  quote := QuoteAmounts [1; 400000000000000000]%Z |};
               {| poll := PollRequestException;
                  quote := QuoteAmounts [1; 900000000000000000]%Z |} ] in
  exists t, trace (final (loop ins initial)) = trace initial ++ t
            /\ forallb quiet t = true /\ alerts t = 0%nat.
Proof.
  intros ins.
  exact (proj1 (proj2 (@unconfigured_monitor_never_evaluates ins initial eq_refl))).
Defined.

(** ** Failures of the two transports *)

Lemma get_token_price_effect q m :
  get_token_price q m =
  match quoted_price q with
  | Ok price => Ret (Some price) {| mem := mem m; trace := trace m ++ [GetAmountsOut] |}
  | Err _ => Ret None {| mem := mem m;
                         trace := trace m ++ [GetAmountsOut; PrintLine ErrorFetchingPrice] |}
  end.
Proof.
  unfold get_token_price. destruct (quoted_price q); run_primitives;
    [reflexivity | now rewrite <- app_assoc].
Qed.

(** The price check never raises. *)
Lemma price_phase_returns q m : returns (price_phase q m) = true.
Proof.
  unfold price_phase. unfold bind at 1 2. unfold read.
  destruct (lower_limit (mem m)) as [lower|], (upper_limit (mem m)) as [upper|];
    try reflexivity.
  unfold bind at 1. rewrite get_token_price_effect.
  destruct (quoted_price q) as [price|e]; [|reflexivity].
  unfold bind, emit.
  match goal with |- context [evaluate lower upper price ?m1] =>
    destruct (evaluate_effect lower upper price m1) as (b & t & -> & _)
  end.
  reflexivity.
Qed.

(** C7. A failed price fetch (a transport or contract error, an empty
    answer, a quotient too large) makes [get_token_price] return [None];
    the price check then returns with every variable unchanged and only
    the error lines added: no evaluation takes place.  A failed poll makes
    [get_telegram_updates] return the empty list, and the poll phase then
    does what it does for an empty answer, up to the error line.  With
    either failure, or both, the iteration returns. *)
Theorem transport_failures_absorbed
  (q : quote_response) (e : exn) (offset : option Z) (m : machine) :
  quoted_price q = Err e ->
  get_token_price q m =
    Ret None {| mem := mem m;
                trace := trace m ++ [GetAmountsOut; PrintLine ErrorFetchingPrice] |}
  /\ price_phase q m =
       Ret tt {| mem := mem m; trace := trace m ++ failed_price_trace (mem m) |}
  /\ get_telegram_updates offset PollRequestException m =
       Ret [] {| mem := mem m;
                 trace := trace m ++ [GetUpdates offset; PrintLine ErrorFetchingUpdates] |}
  /\ poll_phase PollRequestException m =
       Ret tt {| mem := mem m;
                 trace := trace m ++ [GetUpdates (last_update_id (mem m));
                                      PrintLine ErrorFetchingUpdates; Sleep 1] |}
  /\ poll_phase (PollJson (Some [])) m =
       Ret tt {| mem := mem m;
                 trace := trace m ++ [GetUpdates (last_update_id (mem m)); Sleep 1] |}
  /\ (forall q', returns (iteration {| poll := PollRequestException; quote := q' |} m)
                 = true)
  /\ (forall r, returns (iteration {| poll := r; quote := q |} m)
                = returns (poll_phase r m))
  /\ exists t, iteration {| poll := PollRequestException; quote := q |} m =
               Ret tt {| mem := mem m; trace := trace m ++ t |}
               /\ alerts t = 0%nat.
Proof.
  intros Hq.
  assert (Hg : forall m0, get_token_price q m0 =
            Ret None {| mem := mem m0;
                        trace := trace m0 ++ [GetAmountsOut; PrintLine ErrorFetchingPrice] |}).
  { intros m0. now rewrite get_token_price_effect, Hq. }
  assert (Hp : forall m0, price_phase q m0 =
            Ret tt {| mem := mem m0; trace := trace m0 ++ failed_price_trace (mem m0) |}).
  { intros m0. unfold price_phase, failed_price_trace, configured.
    unfold bind at 1 2. unfold read.
    destruct (lower_limit (mem m0)), (upper_limit (mem m0));
      try (unfold ret; rewrite app_nil_r; now destruct m0).
    unfold bind. rewrite Hg. unfold emit. cbn [mem trace].
    now rewrite <- app_assoc. }
  assert (Hpoll : poll_phase PollRequestException m =
            Ret tt {| mem := mem m;
                      trace := trace m ++ [GetUpdates (last_update_id (mem m));
                                           PrintLine ErrorFetchingUpdates; Sleep 1] |}).
  { unfold poll_phase, get_telegram_updates, command_phase. run_primitives.
    now rewrite <- !app_assoc. }
  split; [apply Hg | split; [apply Hp | split; [|split; [exact Hpoll | split; [|split; [|split]]]]]].
  - unfold get_telegram_updates. run_primitives. now rewrite <- app_assoc.
  - unfold poll_phase, get_telegram_updates, command_phase. run_primitives.
    now rewrite <- app_assoc.
  - intros q'. unfold iteration. cbn [poll quote]. unfold bind at 1.
    rewrite Hpoll. unfold bind.
    match goal with |- context [price_phase q' ?m1] =>
      pose proof (price_phase_returns q' m1) as Hr;
      destruct (price_phase q' m1)
    end; [reflexivity | discriminate].
  - intros r. unfold iteration. cbn [poll quote]. unfold bind at 1.
    destruct (poll_phase r m) as [[] m1|e1 m1]; [|reflexivity].
    unfold bind. now rewrite Hp.
  - unfold iteration. cbn [poll quote]. unfold bind at 1. rewrite Hpoll.
    unfold bind. rewrite Hp. unfold emit. cbn [mem trace].
    eexists. split; [rewrite <- !app_assoc; reflexivity|].
    unfold failed_price_trace. destruct (configured (mem m)); reflexivity.
Qed.

Lemma transport_failures_absorbed_witness :
  let m := configured_machine (fl "0.5") (fl "2.0") true in
  price_phase (QuoteAmounts []) m =
    Ret tt {| mem := mem m;
              trace := [GetAmountsOut; PrintLine ErrorFetchingPrice;
                        PrintLine UnableToRetrievePrice] |}.
Proof.
  intros m.
  exact (proj1 (proj2 (@transport_failures_absorbed
                         (QuoteAmounts []) IndexError None m eq_refl))).
Defined.

(** ** The message cursor *)

Lemma cursor_le_refl a : cursor_le a a.
Proof. destruct a; simpl; [lia | exact I]. Qed.

Lemma cursor_le_trans a b c : cursor_le a b -> cursor_le b c -> cursor_le a c.
Proof. destruct a, b, c; simpl; try tauto; lia. Qed.

(** A command text leaves the cursor alone, however it ends. *)
Lemma apply_command_text_cursor raw m :
  let m' := final (apply_command_text raw m) in
  last_update_id (mem m') = last_update_id (mem m)
  /\ current_update_id (mem m') = current_update_id (mem m).
Proof.
  pose proof (apply_command_text_cases raw m) as C.
  destruct (re_match _) as [[g1 g2]|]; [|rewrite C; auto].
  destruct (py_float g1); [|rewrite C; auto].
  destruct (py_float g2); rewrite C; auto.
Qed.

(** An update that carries an identifier [i]: when its processing returns
    the cursor is [i + 1]; when it raises the cursor is what it was. *)
Lemma process_update_with_id upd i m :
  update_id upd = Some i ->
  let o := process_update upd m in
  (returns o = true ->
     last_update_id (mem (final o)) = Some (i + 1)%Z
     /\ current_update_id (mem (final o)) = Some i)
  /\ (returns o = false ->
     last_update_id (mem (final o)) = last_update_id (mem m)).
Proof.
  intros Hi. unfold process_update. rewrite Hi.
  unfold bind at 1 2. unfold set_current_update_id at 1, update_vars at 1.
  set (m1 := {| mem := _; trace := trace m |}).
  assert (H1 : forall c : M unit,
             (forall m0, c m0 = Ret tt m0) \/ (exists raw, c = apply_command_text raw) ->
             let o := match c m1 with
                      | Ret _ m' =>
                          (x <- read_current_update_id;; set_last_update_id (x + 1)) m'
                      | Raise e m' => Raise e m'
                      end in
             (returns o = true ->
                last_update_id (mem (final o)) = Some (i + 1)%Z
                /\ current_update_id (mem (final o)) = Some i)
             /\ (returns o = false ->
                last_update_id (mem (final o)) = last_update_id (mem m))).
  { intros c [Hc | [raw ->]].
    - rewrite Hc. run_primitives. cbn. split; [auto | discriminate].
    - destruct (apply_command_text_cursor raw m1) as [Hl Hcur].
      destruct (apply_command_text raw m1) as [[] m2|e m2]; cbn [final] in *.
      + run_primitives. rewrite Hcur. cbn. split; [auto | discriminate].
      + cbn. split; [discriminate | auto]. }
  destruct (message upd) as [msg|]; [|apply H1; left; reflexivity].
  destruct (text_field msg) as [raw|]; [|apply H1; left; reflexivity].
  apply H1. right. now exists raw.
Qed.

(** An update without identifier: the guard of line 165 fails and nothing
    is executed. *)
Lemma process_update_without_id upd m :
  update_id upd = None -> process_update upd m = Ret tt m.
Proof. intros Hi. unfold process_update. now rewrite Hi. Qed.

Lemma for_each_app {A} (body : A -> M unit) (l1 l2 : list A) (m : machine) :
  for_each body (l1 ++ l2) m = (for_each body l1 ;; for_each body l2) m.
Proof.
  revert m. induction l1 as [|x l1 IH]; intros m; cbn [for_each app].
  - reflexivity.
  - unfold bind at 1 2 3. destruct (body x m) as [[] m1|e m1]; [|reflexivity].
    rewrite IH. reflexivity.
Qed.

(** When the processing of a batch returns and its last update carries an
    identifier, the cursor is that identifier plus one. *)
Lemma cursor_after_batch updates upd i m :
  update_id upd = Some i ->
  returns (for_each process_update (updates ++ [upd]) m) = true ->
  last_update_id (mem (final (for_each process_update (updates ++ [upd]) m)))
  = Some (i + 1)%Z.
Proof.
  intros Hi. rewrite for_each_app. unfold bind at 1 2.
  destruct (for_each process_update updates m) as [[] m1|e m1]; [|discriminate].
  cbn [for_each]. unfold bind at 1 2.
  destruct (process_update_with_id upd m1 Hi) as [H _].
  destruct (process_update upd m1) as [[] m2|e m2]; [|discriminate].
  intros _. apply H. reflexivity.
Qed.

(** A batch within the contract: the cursor does not go down, returning
    or raising; when the processing returns, every identifier of the batch
    is below the cursor. *)
Lemma batch_cursor updates : forall m,
  honors_offset (last_update_id (mem m)) updates ->
  let o := for_each process_update updates m in
  cursor_le (last_update_id (mem m)) (last_update_id (mem (final o)))
  /\ (returns o = true ->
      Forall (fun i => cursor_le (Some (i + 1)%Z) (last_update_id (mem (final o))))
             (batch_ids updates)).
Proof.
  induction updates as [|upd rest IH]; intros m [Hs Hge]; cbn [for_each].
  - cbn. split; [apply cursor_le_refl | constructor].
  - unfold bind. destruct (update_id upd) as [i|] eqn:Hi.
    + cbn [batch_ids flat_map] in Hs, Hge |- *. rewrite Hi in Hs, Hge |- *.
      cbn [app] in Hs, Hge |- *.
      apply StronglySorted_inv in Hs as [Hs Hlt].
      apply Forall_inv in Hge as Hgi.
      destruct (process_update_with_id upd m Hi) as [Hr Hx].
      destruct (process_update upd m) as [[] m1|e m1]; cbn [final returns] in *.
      * destruct (Hr eq_refl) as [Hl Hc]. clear Hr Hx.
        assert (Hh1 : honors_offset (last_update_id (mem m1)) rest).
        { split; [exact Hs|]. rewrite Hl. eapply Forall_impl; [|exact Hlt].
          cbn. intros. lia. }
        destruct (IH m1 Hh1) as [Hle Hret]. fold (batch_ids rest).
        assert (Hstep : cursor_le (last_update_id (mem m)) (last_update_id (mem m1))).
        { rewrite Hl. destruct (last_update_id (mem m)); cbn in *; [lia | exact I]. }
        split; [eapply cursor_le_trans; eassumption|].
        intros Hok. constructor; [|exact (Hret Hok)].
        rewrite Hl in Hle. exact Hle.
      * rewrite (Hx eq_refl). split; [apply cursor_le_refl | discriminate].
    + cbn [batch_ids flat_map] in Hs, Hge |- *. rewrite Hi in Hs, Hge |- *.
      cbn [app] in Hs, Hge |- *. fold (batch_ids rest) in *.
      rewrite (process_update_without_id _ _ Hi).
      apply IH. split; assumption.
Qed.

Lemma poll_phase_unfold r m :
  poll_phase r m =
  command_phase (updates_of r)
    {| mem := mem m;
       trace := trace m ++ GetUpdates (last_update_id (mem m)) ::
                match r with
                | PollRequestException => [PrintLine ErrorFetchingUpdates]
                | PollJson _ => []
                end |}.
Proof.
  unfold poll_phase, get_telegram_updates.
  destruct r as [|[updates|]]; run_primitives; cbn [updates_of];
    try reflexivity.
  now rewrite <- app_assoc.
Qed.

Lemma command_phase_cursor updates m :
  honors_offset (last_update_id (mem m)) updates ->
  let o := command_phase updates m in
  cursor_le (last_update_id (mem m)) (last_update_id (mem (final o)))
  /\ (returns o = true ->
      Forall (fun i => cursor_le (Some (i + 1)%Z) (last_update_id (mem (final o))))
             (batch_ids updates)).
Proof.
  intros Hh. unfold command_phase. destruct updates as [|u rest].
  - cbn. split; [apply cursor_le_refl | constructor].
  - unfold bind, emit.
    apply (@batch_cursor (u :: rest)
             {| mem := mem m;
                trace := trace m ++ [PrintLine (ReceivedUpdates (List.length (u :: rest)))] |});
      assumption.
Qed.

(** One iteration whose poll is answered within the contract. *)
Lemma iteration_cursor i m :
  honors_offset (last_update_id (mem m)) (updates_of (poll i)) ->
  let o := iteration i m in
  cursor_le (last_update_id (mem m)) (last_update_id (mem (final o)))
  /\ (returns o = true ->
      Forall (fun j => cursor_le (Some (j + 1)%Z) (last_update_id (mem (final o))))
             (batch_ids (updates_of (poll i)))).
Proof.
  intros Hh. cbv zeta.
  set (m1 := {| mem := mem m;
                trace := trace m ++ GetUpdates (last_update_id (mem m)) ::
                         match poll i with
                         | PollRequestException => [PrintLine ErrorFetchingUpdates]
                         | PollJson _ => []
                         end |}).
  assert (E : iteration i m =
              (command_phase (updates_of (poll i)) ;;
               price_phase (quote i) ;; emit (Sleep 10)) m1).
  { unfold iteration. unfold bind at 1. rewrite poll_phase_unfold. reflexivity. }
  rewrite E. clear E. unfold bind.
  destruct (@command_phase_cursor (updates_of (poll i)) m1 Hh) as [Hle Hret].
  destruct (command_phase (updates_of (poll i)) m1) as [[] m2|e m2];
    cbn [final returns] in *; [|split; [exact Hle | discriminate]].
  pose proof (Hret eq_refl) as Hall. clear Hret.
  destruct (price_frame_price_phase (quote i) m2) as (_ & [Hl Hc] & _).
  pose proof (price_phase_returns (quote i) m2) as Hr.
  destruct (price_phase (quote i) m2) as [[] m3|e m3];
    cbn [final returns] in *; [|discriminate].
  unfold emit. cbn [final returns mem].
  rewrite Hl. auto.
Qed.

Lemma processed_then_batch_sorted offset ids updates :
  StronglySorted Z.lt ids ->
  Forall (fun j => cursor_le (Some (j + 1)%Z) offset) ids ->
  honors_offset offset updates ->
  StronglySorted Z.lt (ids ++ batch_ids updates).
Proof.
  intros Hs Hb [Hsb Hge].
  induction ids as [|j ids IH]; cbn [app]; [exact Hsb|].
  apply StronglySorted_inv in Hs as [Hs Hj].
  apply Forall_inv in Hb as Hbj. apply Forall_inv_tail in Hb.
  constructor; [apply IH; assumption|].
  apply Forall_app. split; [exact Hj|].
  eapply Forall_impl; [|exact Hge]. cbn. intros k Hk.
  destruct offset; cbn in *; [lia | contradiction].
Qed.

Lemma lawful_invariant m ids :
  lawful m ids ->
  StronglySorted Z.lt ids
  /\ Forall (fun j => cursor_le (Some (j + 1)%Z) (last_update_id (mem m))) ids.
Proof.
  induction 1 as [|m ids i m' Hl (Hs & Hb) Hh Hi].
  - repeat split; constructor.
  - destruct (@iteration_cursor i m Hh) as [Hle Hret].
    rewrite Hi in Hle, Hret. cbn [final returns] in *.
    pose proof (Hret eq_refl) as Hall.
    split.
    + eapply processed_then_batch_sorted; eassumption.
    + apply Forall_app. split; [|exact Hall].
      eapply Forall_impl; [|exact Hb]. intros j Hj.
      exact (@cursor_le_trans (Some (j + 1)%Z) _ _ Hj Hle).
Qed.

(** C5. An iteration whose poll is answered within the contract of
    [getUpdates] (identifiers ascending, none below the offset), started in
    any machine state and returning or raising, never lowers the cursor;
    and in a run whose polls so far were all answered so, every identifier
    processed so far is below the cursor, and the identifiers processed so
    far followed by those of the next batch are strictly increasing, so no
    identifier is processed twice. *)
Theorem cursor_never_decreases (m : machine) (next : inputs) :
  honors_offset (last_update_id (mem m)) (updates_of (poll next)) ->
  cursor_le (last_update_id (mem m))
            (last_update_id (mem (final (iteration next m))))
  /\ forall ids, lawful m ids ->
       Forall (fun j => cursor_le (Some (j + 1)%Z) (last_update_id (mem m))) ids
       /\ StronglySorted Z.lt (ids ++ batch_ids (updates_of (poll next)))
       /\ NoDup (ids ++ batch_ids (updates_of (poll next))).
Proof.
  intros Hh. destruct (@iteration_cursor next m Hh) as [Hle _].
  split; [exact Hle|]. intros ids Hl.
  destruct (lawful_invariant Hl) as (Hs & Hb).
  assert (Hss : StronglySorted Z.lt (ids ++ batch_ids (updates_of (poll next))))
    by (eapply processed_then_batch_sorted; eassumption).
  split; [exact Hb | split; [exact Hss|]].
  clear - Hss. induction Hss as [|a l Hs IH Ha]; constructor; [|exact IH].
  intros Hin. rewrite Forall_forall in Ha. specialize (Ha _ Hin). lia.
Qed.

Lemma cursor_never_decreases_witness :
  let first := {| poll := PollJson (Some [text_update 5 (txt "monitor-mps 0.5 2.0");
                                          text_update 6 (txt "hello")]);
                  quote := QuoteAmounts [1; 400000000000000000]%Z |} in
  let next := {| poll := PollJson (Some [text_update 7 (txt "monitor-mps 1 3")]);
                 quote := QuoteException |} in
  let m := final (iteration first (final (startup initial))) in
  cursor_le (last_update_id (mem m))
            (last_update_id (mem (final (iteration next m))))
  /\ NoDup ([5; 6] ++ [7])%Z.
Proof.
  intros first next m.
  assert (L : lawful m ([] ++ batch_ids (updates_of (poll first)))).
  { apply lawful_step with (m := final (startup initial)).
    - apply lawful_start.
    - split; vm_compute; repeat constructor.
    - subst m. vm_compute. reflexivity. }
  assert (H : honors_offset (last_update_id (mem m)) (updates_of (poll next))).
  { split; vm_compute; repeat constructor. discriminate. }
  destruct (@cursor_never_decreases m next H) as (Hle & Hids).
  destruct (Hids _ L) as (_ & _ & Hnd).
  exact (conj Hle Hnd).
Defined.

(** C5, as stated, fails.  Line 187 assigns the cursor without comparing:
    after a batch with the identifiers 3 and 9 the cursor is 10; a poll
    answered with the update 3 again lowers it to 4, and the command of
    that update is applied and confirmed a second time.  So not every
    iteration of a run keeps the cursor from going down. *)
Lemma cursor_lowered_by_redelivered_update :
  let first := {| poll := PollJson (Some [text_update 3 (txt "monitor-mps 1 2");
                                          text_update 9 (txt "hello")]);
                  quote := QuoteException |} in
  let again := {| poll := PollJson (Some [text_update 3 (txt "monitor-mps 1 2")]);
                  quote := QuoteException |} in
  let m := final (main [first] initial) in
  let m' := final (iteration again m) in
  main [first] initial = Ret tt m
  /\ last_update_id (mem m) = Some 10%Z
  /\ iteration again m = Ret tt m'
  /\ last_update_id (mem m') = Some 4%Z
  /\ ~ cursor_le (last_update_id (mem m)) (last_update_id (mem m'))
  /\ filter is_confirmation (trace m')
     = [SendMessage (LimitsUpdated (fl "1") (fl "2"));
        SendMessage (LimitsUpdated (fl "1") (fl "2"))]
  /\ ~ (forall ins next m0,
          main ins initial = Ret tt m0 ->
          cursor_le (last_update_id (mem m0))
                    (last_update_id (mem (final (iteration next m0))))).
Proof.
  intros first again m m'.
  assert (E1 : main [first] initial = Ret tt m) by (vm_compute; reflexivity).
  assert (L1 : last_update_id (mem m) = Some 10%Z) by (vm_compute; reflexivity).
  assert (L2 : last_update_id (mem m') = Some 4%Z) by (vm_compute; reflexivity).
  assert (N : ~ cursor_le (last_update_id (mem m)) (last_update_id (mem m'))).
  { rewrite L1, L2. cbn. lia. }
  split; [exact E1 | split; [exact L1 | split; [vm_compute; reflexivity|]]].
  split; [exact L2 | split; [exact N | split; [vm_compute; reflexivity|]]].
  intros H. apply N. exact (H [first] again m E1).
Qed.

(** C4. A batch with identifiers 5 and 6 whose first text is
    [monitor-mps 1.2.3 4], polled with cursor 5: the [ValueError] of line 174
    leaves the loop before line 187, so the cursor is still 5, not 7, and no
    further poll is made. *)
Theorem cursor_stuck_when_numeral_rejected :
  let ins :=
    [ {| poll := PollJson (Some [text_update 4 (txt "hello")]);
         quote := QuoteException |};
      {| poll := PollJson (Some [text_update 5 (txt "monitor-mps 1.2.3 4");
                                 text_update 6 (txt "hello")]);
         quote := QuoteException |} ] in
  exists m',
    main ins initial = Raise ValueError m'
    /\ last_update_id (mem m') = Some 5%Z
    /\ last_update_id (mem m') <> Some 7%Z
    /\ filter (fun e => match e with GetUpdates _ => true | _ => false end)
              (trace m')
       = [GetUpdates None; GetUpdates (Some 5%Z)].
Proof.
  intros ins. eexists. split; [vm_compute; reflexivity|].
  cbn. repeat split. discriminate.
Qed.

(** C10. An update without [update_id] is skipped entirely, in every
    machine state: its text, even a well-formed command, is neither parsed
    nor applied, nothing is sent or printed and no variable changes, the
    cursor included.  The cursor changes only on an update that carries an
    identifier [i], and then it becomes [i + 1]. *)
Theorem update_without_id_is_skipped (upd : update) (m : machine) :
  update_id upd = None ->
  process_update upd m = Ret tt m
  /\ forall u m0,
       last_update_id (mem (final (process_update u m0)))
         <> last_update_id (mem m0) ->
       exists i, update_id u = Some i
                 /\ last_update_id (mem (final (process_update u m0)))
                    = Some (i + 1)%Z.
Proof.
  intros Hi. split; [exact (process_update_without_id upd m Hi)|].
  intros u m0 Hne. destruct (update_id u) as [i|] eqn:Hu.
  - exists i. split; [reflexivity|].
    destruct (process_update_with_id u m0 Hu) as [Hr Hx].
    destruct (returns (process_update u m0)) eqn:R.
    + apply Hr. reflexivity.
    + exfalso. apply Hne, Hx. reflexivity.
  - exfalso. apply Hne. now rewrite (process_update_without_id u m0 Hu).
Qed.

Lemma update_without_id_is_skipped_witness :
  let upd := {| update_id := None;
                message := Some {| text_field := Some (txt "monitor-mps 1 2") |} |} in
  let m := configured_machine (fl "0.5") (fl "2.0") true in
  process_update upd m = Ret tt m.
Proof.
  intros upd m.
  exact (proj1 (@update_without_id_is_skipped upd m eq_refl)).
Defined.

(** ** The scenarios of the specification, run on the model *)

(** [monitor-mps 1 2]: Armed, limits 1.0 and 2.0, confirmation sent. *)
Example scenario_configure :
  process_update (text_update 5 (txt "monitor-mps 1 2")) initial
  = Ret tt {| mem := {| lower_limit := Some (fl "1.0");
                        upper_limit := Some (fl "2.0");
                        alert_sent := false;
                        last_update_id := Some 6%Z;
                        current_update_id := Some 5%Z |};
              trace := [SendMessage (LimitsUpdated (fl "1.0") (fl "2.0"));
                        PrintLine (LimitsUpdatedLine (fl "1.0") (fl "2.0"))] |}.
Proof. vm_compute. reflexivity. Qed.

(** [monitor-mps abc def]: nothing changes but the cursor, nothing is sent. *)
Example scenario_malformed_text :
  process_update (text_update 5 (txt "monitor-mps abc def"))
    (configured_machine (fl "0.5") (fl "2.0") true)
  = Ret tt {| mem := {| lower_limit := Some (fl "0.5");
                        upper_limit := Some (fl "2.0");
                        alert_sent := true;
                        last_update_id := Some 6%Z;
                        current_update_id := Some 5%Z |};
              trace := [] |}.
Proof. vm_compute. reflexivity. Qed.

(** Updates 5 and 6: the next poll uses offset 7. *)
Example scenario_next_offset :
  trace (final (loop [ {| poll := PollJson (Some [text_update 5 (txt "hello");
                                                  text_update 6 (txt "world")]);
                          quote := QuoteException |};
                       {| poll := PollJson (Some []);
                          quote := QuoteException |} ] initial))
  = [GetUpdates None; PrintLine (ReceivedUpdates 2); Sleep 10;
     GetUpdates (Some 7%Z); Sleep 1; Sleep 10].
Proof. vm_compute. reflexivity. Qed.

(** The quote call raises: no evaluation, no variable changes. *)
Example scenario_quote_error :
  price_phase QuoteException (configured_machine (fl "0.5") (fl "2.0") false)
  = Ret tt {| mem := mem (configured_machine (fl "0.5") (fl "2.0") false);
              trace := [GetAmountsOut; PrintLine ErrorFetchingPrice;
                        PrintLine UnableToRetrievePrice] |}.
Proof. vm_compute. reflexivity. Qed.

(** No limits yet and a price available: the router is not even asked. *)
Example scenario_unconfigured :
  price_phase (QuoteAmounts [1; 400000000000000000]%Z) initial = Ret tt initial.
Proof. reflexivity. Qed.


(** * Further properties of the script *)

(** ** The command pattern and the texts it lets through *)

Lemma newline_is_space c : (c =? 10)%N = true -> is_space c = true.
Proof. intros H. apply N.eqb_eq in H. now subst c. Qed.

Lemma at_end_stops_numchar tail : at_end tail = true -> stops is_numchar tail.
Proof.
  destruct tail as [|c [|d r]]; cbn; try discriminate; auto.
  intros H. apply space_not_numchar. now apply newline_is_space.
Qed.

(** X1. The matcher of line 172 accepts a text exactly when it is the
    keyword, white space, a run of digits and dots, white space, a run of
    digits and dots, and then nothing or one final newline; the groups are
    the two runs. *)
Theorem pattern_matches_exactly (s g1 g2 : text) :
  re_match s = Some (g1, g2) <->
  exists ws1 ws2 tail,
    s = (keyword ++ ws1 ++ g1 ++ ws2 ++ g2 ++ tail)%list
    /\ blank ws1 = true /\ blank ws2 = true
    /\ g1 <> [] /\ forallb is_numchar g1 = true
    /\ g2 <> [] /\ forallb is_numchar g2 = true
    /\ at_end tail = true.
Proof.
  split; [apply re_match_sound|].
  intros (ws1 & ws2 & tail & -> & B1 & B2 & N1 & C1 & N2 & C2 & E).
  apply blank_spec in B1 as [W1 S1]. apply blank_spec in B2 as [W2 S2].
  unfold re_match. rewrite drop_literal_app.
  rewrite (span_app is_space ws1 (g1 ++ ws2 ++ g2 ++ tail)) by
    (auto using stops_app_l, numchars_stop_space).
  rewrite (span_app is_numchar g1 (ws2 ++ g2 ++ tail)) by
    (auto using stops_app_l, spaces_stop_numchar).
  rewrite (span_app is_space ws2 (g2 ++ tail)) by
    (auto using stops_app_l, numchars_stop_space).
  rewrite (span_app is_numchar g2 tail) by (auto using at_end_stops_numchar).
  now rewrite !is_nil_false, E by assumption.
Qed.

Lemma pattern_matches_exactly_witness :
  re_match (txt "monitor-mps  1.5 2.") = Some (txt "1.5", txt "2.").
Proof.
  apply (proj2 (pattern_matches_exactly
                  (txt "monitor-mps  1.5 2.") (txt "1.5") (txt "2."))).
  exists (txt "  "), (txt " "), []. repeat split; discriminate.
Defined.

Lemma lstrip_stops_space s : stops is_space (lstrip s).
Proof.
  induction s as [|c s IH]; cbn; [exact I|].
  destruct (is_space c) eqn:E; [exact IH | exact E].
Qed.

Lemma lstrip_spaces s : forallb is_space s = true -> lstrip s = [].
Proof.
  induction s as [|c s IH]; cbn; [reflexivity|].
  intros H. apply andb_true_iff in H as [Hc Hs]. now rewrite Hc, IH.
Qed.

Lemma lstrip_app_spaces s pad :
  forallb is_space pad = true ->
  lstrip (s ++ pad) = if forallb is_space s then [] else (lstrip s ++ pad)%list.
Proof.
  intros Hp. induction s as [|c s IH]; cbn.
  - now apply lstrip_spaces.
  - destruct (is_space c); [exact IH | reflexivity].
Qed.

(** A stripped text does not end with white space. *)
Lemma strip_stops_space_at_end s : stops is_space (rev (strip s)).
Proof.
  unfold strip, rstrip. rewrite rev_involutive. apply lstrip_stops_space.
Qed.

Lemma rstrip_app_spaces s pad :
  forallb is_space pad = true -> rstrip (s ++ pad) = rstrip s.
Proof.
  intros Hp. unfold rstrip. rewrite rev_app_distr.
  assert (H : forall a b, forallb is_space a = true -> lstrip (a ++ b) = lstrip b).
  { induction a as [|c a IH]; cbn; intros b Ha; [reflexivity|].
    apply andb_true_iff in Ha as [Hc Ha]. now rewrite Hc, IH. }
  now rewrite H by now rewrite forallb_rev.
Qed.

Lemma strip_padding pad1 s pad2 :
  forallb is_space pad1 = true -> forallb is_space pad2 = true ->
  strip (pad1 ++ s ++ pad2) = strip s.
Proof.
  intros H1 H2. unfold strip.
  assert (H : forall a b, forallb is_space a = true -> lstrip (a ++ b) = lstrip b).
  { induction a as [|c a IH]; cbn; intros b Ha; [reflexivity|].
    apply andb_true_iff in Ha as [Hc Ha]. now rewrite Hc, IH. }
  rewrite H by assumption. rewrite (lstrip_app_spaces s pad2 H2).
  destruct (forallb is_space s) eqn:Hs.
  - now rewrite (lstrip_spaces s Hs).
  - now apply rstrip_app_spaces.
Qed.

Lemma configured_by_changes lo up m : configured_by lo up m <> m.
Proof.
  intros H. apply (f_equal (fun x => List.length (trace x))) in H.
  cbn in H. rewrite length_app in H. cbn in H. lia.
Qed.

(** X2. A message text is applied (limits set, confirmation sent) exactly
    when, stripped of surrounding white space, it is in the grammar
    [monitor-mps <decimal> <decimal>]. *)
Theorem applied_texts_are_the_grammar (raw : text) (m : machine) :
  (exists lo up, apply_command_text raw m = Ret tt (configured_by lo up m))
  <-> (exists L U, command_grammar (strip raw) L U).
Proof.
  pose proof (apply_command_text_cases raw m) as C. split.
  - intros (lo & up & E).
    destruct (re_match (strip raw)) as [[g1 g2]|] eqn:Hm.
    + destruct (re_match_sound _ Hm)
        as (ws1 & ws2 & tail & Hs & B1 & B2 & N1 & C1 & N2 & C2 & Ht).
      assert (D1 : decimal g1 = true).
      { rewrite <- (py_float_accepts_decimals _ C1).
        destruct (py_float g1); [reflexivity | congruence]. }
      assert (D2 : decimal g2 = true).
      { rewrite <- (py_float_accepts_decimals _ C2).
        destruct (py_float g1); [|congruence].
        destruct (py_float g2); [reflexivity | congruence]. }
      assert (tail = []) as ->.
      { destruct tail as [|c [|d r]]; [reflexivity | | discriminate].
        exfalso. pose proof (strip_stops_space_at_end raw) as Hl.
        rewrite Hs in Hl. rewrite !app_assoc, rev_app_distr in Hl. cbn in Hl.
        cbn in Ht. apply newline_is_space in Ht. congruence. }
      exists g1, g2, ws1, ws2. rewrite app_nil_r in Hs. auto.
    + rewrite C in E. injection E as E. symmetry in E.
      now apply configured_by_changes in E.
  - intros (L & U & G). rewrite (command_grammar_matches G) in C.
    destruct G as (_ & _ & _ & _ & _ & D1 & D2).
    destruct (decimal_spec _ D1) as (_ & _ & lo & E1).
    destruct (decimal_spec _ D2) as (_ & _ & up & E2).
    rewrite E1, E2 in C. eauto.
Qed.

Lemma applied_texts_are_the_grammar_witness :
  exists lo up,
    apply_command_text (txt " monitor-mps .5  12. ") initial
    = Ret tt (configured_by lo up initial).
Proof.
  apply (proj2 (applied_texts_are_the_grammar (txt " monitor-mps .5  12. ") initial)).
  exists (txt ".5"), (txt "12."), (txt " "), (txt "  ").
  repeat split; reflexivity.
Defined.

(** X3. A message text makes lines 169-184 raise exactly when the pattern
    matches it with a group that is no decimal; the exception is
    [ValueError] and no variable was assigned, nothing was sent.  Every
    other text returns. *)
Theorem command_text_raises_iff (raw : text) (m : machine) :
  (returns (apply_command_text raw m) = false <->
   exists g1 g2,
     re_match (strip raw) = Some (g1, g2)
     /\ decimal g1 && decimal g2 = false)
  /\ (returns (apply_command_text raw m) = false ->
      apply_command_text raw m = Raise ValueError m)
  /\ (returns (apply_command_text raw m) = true <-> safe_text raw = true).
Proof.
  pose proof (apply_command_text_cases raw m) as C. unfold safe_text.
  destruct (re_match (strip raw)) as [[g1 g2]|] eqn:Hm.
  - destruct (re_match_sound _ Hm) as (_ & _ & _ & _ & _ & _ & _ & C1 & _ & C2 & _).
    destruct (decimal g1 && decimal g2) eqn:D.
    + apply andb_true_iff in D as [D1 D2].
      destruct (decimal_spec _ D1) as (_ & _ & lo & E1).
      destruct (decimal_spec _ D2) as (_ & _ & up & E2).
      rewrite E1, E2 in C. rewrite C. cbn. repeat split; try discriminate; auto.
      intros (h1 & h2 & H & D). injection H as <- <-. rewrite D1, D2 in D.
      discriminate.
    + rewrite (matched_non_decimal_raises raw m Hm D). cbn.
      repeat split; try discriminate; eauto.
  - rewrite C. cbn. repeat split; try discriminate; auto.
    intros (h1 & h2 & H & _). discriminate.
Qed.

Lemma command_text_raises_iff_witness :
  apply_command_text (txt "monitor-mps 1..2 3") initial = Raise ValueError initial.
Proof.
  apply (proj1 (proj2 (command_text_raises_iff (txt "monitor-mps 1..2 3") initial))).
  reflexivity.
Defined.

(** X4. White space before and after a message text does not matter:
    the padded text is processed as the text itself. *)
Theorem surrounding_white_space_ignored
  (padded raw pad1 pad2 : text) (m : machine) :
  padded = (pad1 ++ raw ++ pad2)%list ->
  forallb is_space pad1 = true ->
  forallb is_space pad2 = true ->
  apply_command_text padded m = apply_command_text raw m.
Proof.
  intros E H1 H2. unfold apply_command_text.
  now rewrite E, strip_padding.
Qed.

Lemma surrounding_white_space_ignored_witness :
  apply_command_text (txt "  monitor-mps 1 2 ") initial
  = apply_command_text (txt "monitor-mps 1 2") initial.
Proof.
  apply (@surrounding_white_space_ignored
           (txt "  monitor-mps 1 2 ") (txt "monitor-mps 1 2")
           (txt "  ") (txt " ") initial);
    reflexivity.
Defined.

(** ** Commands and price checks together *)

Lemma SFleb_trans a b c :
  SFleb a b = true -> SFleb b c = true -> SFleb a c = true.
Proof.
  unfold SFleb.
  destruct a as [sa|sa| |sa ma ea], b as [sb|sb| |sb mb eb],
           c as [sc|sc| |sc mc ec]; cbn;
    try discriminate; try reflexivity;
    repeat match goal with s : bool |- _ => destruct s end; cbn;
    try discriminate; try reflexivity;
    rewrite ?Pos.compare_cont_spec; cbn;
    intros H1 H2;
    repeat match goal with
    | H : context [(?x ?= ?y)%Z] |- _ => destruct (Z.compare_spec x y); subst
    | |- context [(?x ?= ?y)%Z] => destruct (Z.compare_spec x y); subst
    | H : context [(?x ?= ?y)%positive] |- _ =>
        destruct (Pos.compare_spec x y); subst
    | |- context [(?x ?= ?y)%positive] => destruct (Pos.compare_spec x y); subst
    end; cbn in *;
    try discriminate; try reflexivity; try lia.
Qed.

Lemma lt_true_numbers a b : lt a b = true -> is_nan a = false /\ is_nan b = false.
Proof. unfold lt, SFltb. destruct a, b; cbn; try discriminate; auto. Qed.

(** With the upper limit below the lower one, every price that is a number
    is out of limits. *)
Lemma inverted_limits_breach lower upper price :
  lt upper lower = true -> is_nan price = false ->
  lt price lower || gt price upper = true.
Proof.
  intros Hinv Np. destruct (@lt_true_numbers upper lower Hinv) as [Nu Nl].
  rewrite (@out_of_limits_not_in_range lower upper price Nl Nu Np).
  unfold in_range, le.
  destruct (SFleb lower price) eqn:H1; [|reflexivity].
  destruct (SFleb price upper) eqn:H2; [|reflexivity].
  pose proof (@SFleb_trans lower price upper H1 H2) as H3.
  rewrite (@lt_not_le upper lower Nu Nl) in Hinv. unfold le in Hinv.
  rewrite H3 in Hinv. discriminate.
Qed.

(** The price check of a configured machine whose quote succeeds: the two
    lines of 194-197, then [evaluate]. *)
Lemma price_phase_checks lower upper q price m :
  lower_limit (mem m) = Some lower -> upper_limit (mem m) = Some upper ->
  quoted_price q = Ok price ->
  price_phase q m =
  evaluate lower upper price
    {| mem := mem m;
       trace := trace m ++ [GetAmountsOut; PrintLine (CurrentPrice price)] |}.
Proof.
  intros Hl Hu Hq. unfold price_phase. unfold bind at 1 2. unfold read.
  rewrite Hl, Hu. unfold bind at 1. rewrite get_token_price_effect, Hq.
  unfold bind, emit. cbn [mem trace]. now rewrite <- app_assoc.
Qed.

(** X5. With the upper limit below the lower limit every successful price
    check is a breach: it leaves the alert flag set, and sends an alert
    exactly when the flag was not set yet. *)
Theorem inverted_limits_always_alerting
  (lower upper price : float) (q : quote_response) (m : machine) :
  lower_limit (mem m) = Some lower ->
  upper_limit (mem m) = Some upper ->
  lt upper lower = true ->
  quoted_price q = Ok price ->
  exists m',
    price_phase q m = Ret tt m'
    /\ alert_sent (mem m') = true
    /\ monitor_of (mem m') = Alerting
    /\ alerts (trace m') =
       (alerts (trace m) + if alert_sent (mem m) then 0 else 1)%nat.
Proof.
  intros Hl Hu Hinv Hq.
  rewrite (@price_phase_checks lower upper q price m Hl Hu Hq).
  pose proof (@inverted_limits_breach lower upper price Hinv (@quoted_price_not_nan q price Hq)) as Hb.
  destruct (alert_sent (mem m)) eqn:Hs.
  - rewrite evaluate_breach_alerting by assumption.
    eexists. split; [reflexivity|]. cbn [mem trace].
    rewrite (monitor_of_configured _ Hl Hu), Hs, alerts_app. cbn. auto.
  - rewrite evaluate_breach_armed by assumption.
    eexists. split; [reflexivity|]. cbn [mem trace with_alert_sent alert_sent].
    split; [reflexivity|]. split; [unfold monitor_of, configured; cbn; now rewrite Hl, Hu|].
    rewrite !alerts_app. cbn. lia.
Qed.

Lemma inverted_limits_always_alerting_witness :
  exists m',
    price_phase (QuoteAmounts [1; 1000000000000000000]%Z)
                (configured_machine (fl "2.0") (fl "0.5") false) = Ret tt m'
    /\ alert_sent (mem m') = true.
Proof.
  destruct (@inverted_limits_always_alerting
              (fl "2.0") (fl "0.5") (fl "1") (QuoteAmounts [1; 1000000000000000000]%Z)
              (configured_machine (fl "2.0") (fl "0.5") false)
              eq_refl eq_refl)
    as (m' & E & A & _); [vm_compute; reflexivity | vm_compute; reflexivity |].
  exists m'. auto.
Defined.

(** X6. An accepted command re-arms the monitor in the same iteration: if
    the price fetched right after it is outside the new limits an alert is
    sent, whether or not one was pending before the command. *)
Theorem accepted_command_rearms_alert
  (raw L U : text) (lo up price : float)
  (q : quote_response) (m : machine) :
  command_grammar (strip raw) L U ->
  py_float L = Ok lo -> py_float U = Ok up ->
  quoted_price q = Ok price ->
  in_range lo up price = false ->
  (apply_command_text raw ;; price_phase q) m =
  Ret tt {| mem := with_alert_sent true (mem (configured_by lo up m));
            trace := trace m ++
                     [SendMessage (LimitsUpdated lo up);
                      PrintLine (LimitsUpdatedLine lo up);
                      GetAmountsOut; PrintLine (CurrentPrice price);
                      SendMessage (Alert price); PrintLine OutOfLimits] |}.
Proof.
  intros G E1 E2 Hq Hout.
  pose proof (apply_command_text_cases raw m) as C.
  rewrite (command_grammar_matches G), E1, E2 in C.
  unfold bind. rewrite C.
  rewrite (@price_phase_checks lo up q price (configured_by lo up m))
    by (reflexivity || assumption).
  pose proof (@out_of_limits_not_in_range lo up price
                (@py_float_not_nan L lo E1) (@py_float_not_nan U up E2)
                (@quoted_price_not_nan q price Hq)) as Hb.
  rewrite Hout in Hb. rewrite evaluate_breach_armed by (assumption || reflexivity).
  cbn [mem trace configured_by]. now rewrite <- !app_assoc.
Qed.

Lemma accepted_command_rearms_alert_witness :
  alerts (trace (final
    ((apply_command_text (txt "monitor-mps 1 2") ;;
      price_phase (QuoteAmounts [1; 400000000000000000]%Z))
       (configured_machine (fl "0.5") (fl "2.0") true)))) = 1%nat.
Proof.
  rewrite (@accepted_command_rearms_alert
             (txt "monitor-mps 1 2") (txt "1") (txt "2")
             (fl "1") (fl "2") (fl "0.4")
             (QuoteAmounts [1; 400000000000000000]%Z)
             (configured_machine (fl "0.5") (fl "2.0") true)).
  - reflexivity.
  - exists (txt " "), (txt " "). repeat split; reflexivity.
  - vm_compute. reflexivity.
  - vm_compute. reflexivity.
  - vm_compute. reflexivity.
  - vm_compute. reflexivity.
Defined.

(** X7. The variables after an accepted command depend only on the command
    and the cursor: whatever text was processed before it (accepted,
    dropped or not), the limits and the alert flag are those the command
    sets; in particular the same command twice leaves what it leaves
    once. *)
Theorem last_accepted_command_wins
  (before raw L U : text) (m : machine) :
  command_grammar (strip raw) L U ->
  mem (final (apply_command_text raw (final (apply_command_text before m))))
  = mem (final (apply_command_text raw m))
  /\ mem (final (apply_command_text raw (final (apply_command_text raw m))))
    = mem (final (apply_command_text raw m)).
Proof.
  intros G.
  destruct (decimal_spec L) as (_ & _ & lo & E1);
    [now destruct G as (_ & _ & _ & _ & _ & D1 & _)|].
  destruct (decimal_spec U) as (_ & _ & up & E2);
    [now destruct G as (_ & _ & _ & _ & _ & _ & D2)|].
  assert (H : forall m0, apply_command_text raw m0 = Ret tt (configured_by lo up m0)).
  { intros m0. pose proof (apply_command_text_cases raw m0) as C.
    now rewrite (command_grammar_matches G), E1, E2 in C. }
  destruct (apply_command_text_cursor before m) as [Hl Hc].
  rewrite !H. cbn [final mem configured_by]. rewrite Hl, Hc. auto.
Qed.

Lemma last_accepted_command_wins_witness :
  mem (final (apply_command_text (txt "monitor-mps 1 2")
                (final (apply_command_text (txt "monitor-mps 5 6") initial))))
  = mem (final (apply_command_text (txt "monitor-mps 1 2") initial)).
Proof.
  refine (proj1 (@last_accepted_command_wins
                   (txt "monitor-mps 5 6") (txt "monitor-mps 1 2")
                   (txt "1") (txt "2") initial _)).
  exists (txt " "), (txt " "). repeat split; reflexivity.
Defined.

(** X8. An update that carries an identifier but no command the pattern
    matches (no message, a message without text, or any other text) only
    moves the cursor past it: the limits, the alert flag and the trace are
    untouched. *)
Theorem update_without_command_only_moves_cursor
  (upd : update) (i : Z) (m : machine) :
  update_id upd = Some i ->
  command_of upd = None ->
  process_update upd m = Ret tt (cursor_moved i m).
Proof.
  intros Hi Hc. unfold process_update, command_of in *. rewrite Hi.
  destruct (message upd) as [msg|]; [|reflexivity].
  destruct (text_field msg) as [raw|]; [|reflexivity].
  unfold bind at 1 2. unfold set_current_update_id at 1, update_vars at 1.
  rewrite (@unmatched_text_dropped raw _ Hc). reflexivity.
Qed.

Lemma update_without_command_only_moves_cursor_witness :
  process_update {| update_id := Some 9%Z; message := Some {| text_field := None |} |}
                 (configured_machine (fl "0.5") (fl "2.0") true)
  = Ret tt (cursor_moved 9 (configured_machine (fl "0.5") (fl "2.0") true)).
Proof.
  apply update_without_command_only_moves_cursor; reflexivity.
Defined.

(** ** What a step of the script emits *)

Lemma emitted_refl kind m : emitted kind m m.
Proof. exists []. now rewrite app_nil_r. Qed.

Lemma emitted_trans kind a b c :
  emitted kind a b -> emitted kind b c -> emitted kind a c.
Proof.
  intros (t1 & T1 & K1) (t2 & T2 & K2). exists (t1 ++ t2). split.
  - now rewrite T2, T1, app_assoc.
  - now rewrite forallb_app, K1, K2.
Qed.

Lemma emitted_weaken (k1 k2 : event -> bool) m m' :
  (forall e, k1 e = true -> k2 e = true) -> emitted k1 m m' -> emitted k2 m m'.
Proof.
  intros Hk (t & T & K). exists t. split; [exact T|].
  rewrite forallb_forall in *. auto.
Qed.

Lemma emitted_emit (kind : event -> bool) e :
  kind e = true -> respects (emitted kind) (emit e).
Proof. intros K m. exists [e]. cbn. now rewrite K. Qed.

Lemma emitted_update_vars kind f : respects (emitted kind) (update_vars f).
Proof. intros m. exists []. cbn. now rewrite app_nil_r. Qed.

Lemma apply_command_text_emits raw :
  respects (emitted command_event) (apply_command_text raw).
Proof.
  intros m. pose proof (apply_command_text_cases raw m) as C.
  destruct (re_match _) as [[g1 g2]|]; [|rewrite C; apply emitted_refl].
  destruct (py_float g1); [|rewrite C; apply emitted_refl].
  destruct (py_float g2); rewrite C; [|apply emitted_refl].
  eexists. split; reflexivity.
Qed.

Lemma evaluate_emits lower upper price :
  respects (emitted price_event) (evaluate lower upper price).
Proof.
  intros m.
  destruct (lt price lower || gt price upper) eqn:Hout;
    destruct (alert_sent (mem m)) eqn:Hs.
  - rewrite evaluate_breach_alerting by assumption. apply emitted_refl.
  - rewrite evaluate_breach_armed by assumption. rewrite <- app_assoc.
    eexists. split; reflexivity.
  - rewrite evaluate_inside_alerting by assumption.
    eexists. split; reflexivity.
  - rewrite evaluate_inside_armed by assumption.
    exists []. cbn. now rewrite app_nil_r.
Qed.

Lemma price_phase_emits q : respects (emitted price_event) (price_phase q).
Proof.
  pose proof (emitted_refl price_event) as Rr.
  pose proof (emitted_trans (kind := price_event)) as Rt.
  unfold price_phase, get_token_price.
  apply respects_bind; [assumption | now apply respects_read | intros lo].
  apply respects_bind; [assumption | now apply respects_read | intros up].
  destruct lo as [lower|], up as [upper|]; try now apply respects_ret.
  apply respects_bind; [assumption | | intros p].
  - apply respects_bind; [assumption | now apply emitted_emit | intros _].
    destruct (quoted_price q); [now apply respects_ret|].
    apply respects_bind; [assumption | now apply emitted_emit | intros _].
    now apply respects_ret.
  - destruct p as [price|]; [|now apply emitted_emit].
    apply respects_bind; [assumption | now apply emitted_emit | intros _].
    apply evaluate_emits.
Qed.

(** ** Relations every iteration respects, from what a command, a price
    check and the loop's own steps do *)

Section LoopSteps.

Variable R : machine -> machine -> Prop.
Hypothesis R_refl : forall m, R m m.
Hypothesis R_trans : forall a b c, R a b -> R b c -> R a c.
Hypothesis R_apply : forall raw, respects R (apply_command_text raw).
Hypothesis R_set_last : forall i, respects R (set_last_update_id i).
Hypothesis R_set_current : forall i, respects R (set_current_update_id i).

Lemma steps_process_update upd : respects R (process_update upd).
Proof.
  unfold process_update, read_current_update_id.
  destruct (update_id upd); [|now apply respects_ret].
  apply respects_bind; [assumption | auto | intros _].
  apply respects_bind; [assumption | | intros _].
  - destruct (message upd) as [msg|]; [|now apply respects_ret].
    destruct (text_field msg); [apply R_apply | now apply respects_ret].
  - apply respects_bind; [assumption | | auto].
    apply respects_bind; [assumption | now apply respects_read | intros c].
    destruct c; [now apply respects_ret | now apply respects_raise].
Qed.

Lemma steps_batch updates : respects R (for_each process_update updates).
Proof. apply respects_for_each; auto using steps_process_update. Qed.

Hypothesis R_loop_event : forall e, loop_event e = true -> respects R (emit e).

Lemma steps_poll_phase r : respects R (poll_phase r).
Proof.
  intros m. rewrite poll_phase_unfold.
  set (m1 := {| mem := mem m; trace := _ |}).
  assert (H1 : R m m1).
  { unfold m1. destruct r.
    - apply (R_trans (R_loop_event (GetUpdates (last_update_id (mem m))) eq_refl m)).
      replace (trace m ++ [GetUpdates (last_update_id (mem m));
                           PrintLine ErrorFetchingUpdates])
        with ((trace m ++ [GetUpdates (last_update_id (mem m))])
              ++ [PrintLine ErrorFetchingUpdates])
        by (now rewrite <- app_assoc).
      apply (R_loop_event (PrintLine ErrorFetchingUpdates) eq_refl
               {| mem := mem m;
                  trace := trace m ++ [GetUpdates (last_update_id (mem m))] |}).
    - apply (R_loop_event (GetUpdates (last_update_id (mem m))) eq_refl m). }
  apply (R_trans H1). unfold command_phase.
  destruct (updates_of r) as [|u rest].
  - apply (R_loop_event (Sleep 1) eq_refl).
  - apply respects_bind; [assumption | now apply R_loop_event | intros _].
    apply steps_batch.
Qed.

Hypothesis R_price_phase : forall q, respects R (price_phase q).

Lemma steps_iteration i : respects R (iteration i).
Proof.
  unfold iteration.
  apply respects_bind; [assumption | apply steps_poll_phase | intros _].
  apply respects_bind; [assumption | apply R_price_phase | intros _].
  now apply R_loop_event.
Qed.

Lemma steps_loop ins : respects R (loop ins).
Proof. apply respects_for_each; auto using steps_iteration. Qed.

End LoopSteps.

(** ** What a whole run emits and keeps *)

Lemma iteration_events_loop ins :
  respects (emitted iteration_event) (loop ins).
Proof.
  apply steps_loop.
  - apply emitted_refl.
  - apply emitted_trans.
  - intros raw m. apply (emitted_weaken (k1 := command_event)).
    + intros e He. unfold iteration_event. rewrite He. now rewrite orb_true_r.
    + apply apply_command_text_emits.
  - intros i. apply emitted_update_vars.
  - intros i. apply emitted_update_vars.
  - intros e He. apply emitted_emit. unfold iteration_event. now rewrite He.
  - intros q m. apply (emitted_weaken (k1 := price_event)).
    + intros e He. unfold iteration_event. rewrite He. now rewrite orb_true_r.
    + apply price_phase_emits.
Qed.

(** X9. In every run the start message is the first event, followed by its
    console line, and is never sent again: all that follows are polls,
    pauses, confirmations of accepted commands and events of price
    checks. *)
Theorem start_message_first_and_once (ins : list inputs) :
  exists t,
    trace (final (main ins initial))
    = SendMessage StartMessage :: PrintLine ScriptStarted :: t
    /\ forallb iteration_event t = true
    /\ ~ In (SendMessage StartMessage) t.
Proof.
  unfold main, startup. unfold bind at 1.
  set (m0 := {| mem := initial_vars;
                trace := [SendMessage StartMessage; PrintLine ScriptStarted] |}).
  change ((send_telegram_text StartMessage;; emit (PrintLine ScriptStarted)) initial)
    with (Ret tt m0).
  destruct (iteration_events_loop ins m0) as (t & Ht & K).
  exists t. rewrite Ht. repeat split; [exact K|].
  intros Hin. rewrite forallb_forall in K. specialize (K _ Hin). discriminate.
Qed.

Lemma alert_needs_limits_loop ins : respects keeps_alert_needs_limits (loop ins).
Proof.
  apply steps_loop; unfold respects, keeps_alert_needs_limits, alert_needs_limits;
    auto.
  - intros raw m H. pose proof (apply_command_text_cases raw m) as C.
    destruct (re_match _) as [[g1 g2]|]; [|now rewrite C].
    destruct (py_float g1); [|now rewrite C].
    destruct (py_float g2); rewrite C; [discriminate | exact H].
  - intros q m H. destruct (configured (mem m)) eqn:Hc.
    + destruct (price_frame_price_phase q m) as ([L U] & _ & _).
      intros _. unfold configured in *. now rewrite L, U.
    + rewrite (unconfigured_price_phase q m Hc). cbn [final].
      rewrite Hc. exact H.
Qed.

(** X10. In every machine a run from the start of the script ends in,
    returning or raising, the alert flag is set exactly when the monitor is
    Alerting: the flag is never set while a limit is missing. *)
Theorem alert_flag_set_only_when_configured (ins : list inputs) :
  let m := final (main ins initial) in
  (alert_sent (mem m) = true <-> monitor_of (mem m) = Alerting)
  /\ (monitor_of (mem m) = Unconfigured -> alert_sent (mem m) = false).
Proof.
  intros m.
  assert (H : alert_needs_limits (mem m)).
  { unfold m, main, startup. unfold bind at 1.
    change ((send_telegram_text StartMessage;; emit (PrintLine ScriptStarted)) initial)
      with (Ret tt {| mem := initial_vars;
                      trace := [SendMessage StartMessage; PrintLine ScriptStarted] |}).
    apply alert_needs_limits_loop. discriminate. }
  unfold alert_needs_limits, monitor_of in *.
  destruct (alert_sent (mem m)), (configured (mem m));
    repeat split; try discriminate; auto;
    intros _; specialize (H eq_refl); discriminate.
Qed.

Lemma alert_flag_set_only_when_configured_witness :
  let m := final (main [ {| poll := PollJson (Some [text_update 1 (txt "monitor-mps 1 2")]);
                            quote := QuoteAmounts [3000000000000000000]%Z |} ]
                       initial) in
  monitor_of (mem m) = Alerting.
Proof.
  intros m.
  apply (proj1 (proj1 (alert_flag_set_only_when_configured
                         [ {| poll := PollJson (Some [text_update 1 (txt "monitor-mps 1 2")]);
                              quote := QuoteAmounts [3000000000000000000]%Z |} ]))).
  vm_compute. reflexivity.
Defined.

Lemma limits_are_numbers_loop ins : respects keeps_limits_numbers (loop ins).
Proof.
  apply steps_loop; unfold respects, keeps_limits_numbers; auto.
  - intros raw m H. pose proof (apply_command_text_cases raw m) as C.
    destruct (re_match _) as [[g1 g2]|]; [|now rewrite C].
    destruct (py_float g1) eqn:E1; [|now rewrite C].
    destruct (py_float g2) eqn:E2; rewrite C; [|exact H].
    split; cbn; eauto using py_float_not_nan.
  - intros q m H. destruct (price_frame_price_phase q m) as ([L U] & _ & _).
    unfold limits_are_numbers. now rewrite L, U.
Qed.

(** X11. In every machine a run from the start of the script returns in,
    with limits set and a quote that succeeds: the test of line 200 is the
    complement of [lower <= price <= upper] (no NaN can reach it); after
    the price check the alert flag says whether the price is outside the
    closed interval, and an alert was sent exactly when it is outside and
    none was pending. *)
Theorem reachable_price_check_is_interval_test
  (ins : list inputs) (q : quote_response) (lower upper price : float) :
  let m := final (main ins initial) in
  lower_limit (mem m) = Some lower ->
  upper_limit (mem m) = Some upper ->
  quoted_price q = Ok price ->
  lt price lower || gt price upper = negb (in_range lower upper price)
  /\ returns (price_phase q m) = true
  /\ alert_sent (mem (final (price_phase q m)))
     = negb (in_range lower upper price)
  /\ alerts (trace (final (price_phase q m)))
     = (alerts (trace m)
        + if in_range lower upper price || alert_sent (mem m) then 0 else 1)%nat.
Proof.
  intros m Hl Hu Hq.
  assert (H : limits_are_numbers (mem m)).
  { unfold m, main, startup. unfold bind at 1.
    change ((send_telegram_text StartMessage;; emit (PrintLine ScriptStarted)) initial)
      with (Ret tt {| mem := initial_vars;
                      trace := [SendMessage StartMessage; PrintLine ScriptStarted] |}).
    apply limits_are_numbers_loop. split; exact I. }
  destruct H as [Nl Nu]. rewrite Hl in Nl. rewrite Hu in Nu.
  pose proof (@out_of_limits_not_in_range lower upper price Nl Nu
                (@quoted_price_not_nan q price Hq)) as Hout.
  split; [exact Hout|].
  rewrite (@price_phase_checks lower upper q price m Hl Hu Hq).
  destruct (in_range lower upper price); cbn [negb orb] in *;
    destruct (alert_sent (mem m)) eqn:Hs.
  - rewrite evaluate_inside_alerting by assumption. simpl_outcome.
    repeat split. rewrite !alerts_app. cbn. lia.
  - rewrite evaluate_inside_armed by assumption. simpl_outcome.
    repeat split. rewrite !alerts_app. cbn. lia.
  - rewrite evaluate_breach_alerting by assumption. simpl_outcome.
    repeat split; [exact Hs|]. rewrite !alerts_app. cbn. lia.
  - rewrite evaluate_breach_armed by assumption. simpl_outcome.
    repeat split. rewrite !alerts_app. cbn. lia.
Qed.

Lemma reachable_price_check_is_interval_test_witness :
  let ins := [ {| poll := PollJson (Some [text_update 1 (txt "monitor-mps 1 2")]);
                  quote := QuoteAmounts [1500000000000000000]%Z |} ] in
  alert_sent (mem (final (price_phase (QuoteAmounts [2000000000000000000]%Z)
                                      (final (main ins initial)))))
  = negb (in_range (fl "1") (fl "2") (fl "2")).
Proof.
  intros ins.
  refine (proj1 (proj2 (proj2
    (@reachable_price_check_is_interval_test
       ins (QuoteAmounts [2000000000000000000]%Z) (fl "1") (fl "2") (fl "2")
       _ _ _)))); vm_compute; reflexivity.
Defined.

(** ** What can stop the loop, and what cannot *)

Lemma raises_only_ret P {A} (a : A) : raises_only P (ret a).
Proof. intros m e m' H. discriminate. Qed.

Lemma raises_only_bind P {A B} (c : M A) (k : A -> M B) :
  raises_only P c -> (forall a, raises_only P (k a)) -> raises_only P (bind c k).
Proof.
  intros Hc Hk m e m'. unfold bind.
  destruct (c m) as [a m1|e1 m1] eqn:E.
  - apply Hk.
  - intros H. injection H as <- <-. eapply Hc, E.
Qed.

Lemma raises_only_for_each P {A} (body : A -> M unit) (l : list A) :
  (forall x, raises_only P (body x)) -> raises_only P (for_each body l).
Proof.
  intros Hb. induction l as [|x l IH]; cbn [for_each].
  - apply raises_only_ret.
  - apply raises_only_bind; auto.
Qed.

Lemma raises_only_returns P {A} (c : M A) :
  (forall m, returns (c m) = true) -> raises_only P c.
Proof. intros H m e m' E. specialize (H m). rewrite E in H. discriminate. Qed.

Lemma py_float_error s e : py_float s = Err e -> e = ValueError.
Proof.
  unfold py_float. destruct (span is_digit s) as [ip [|c fp]].
  - destruct (is_nil ip); congruence.
  - destruct (is_dot c && forallb is_digit fp && negb (is_nil ip && is_nil fp));
      congruence.
Qed.

Lemma apply_command_text_raises_value_error raw :
  raises_only (fun e => e = ValueError) (apply_command_text raw).
Proof.
  intros m e m' E. pose proof (apply_command_text_cases raw m) as C.
  destruct (re_match _) as [[g1 g2]|]; [|congruence].
  destruct (py_float g1) eqn:E1;
    [|rewrite C in E; injection E as <- _; eapply py_float_error, E1].
  destruct (py_float g2) eqn:E2; [congruence|].
  rewrite C in E. injection E as <- _. eapply py_float_error, E2.
Qed.

Lemma process_update_raises_value_error upd :
  raises_only (fun e => e = ValueError) (process_update upd).
Proof.
  intros m e m' E. unfold process_update in E.
  destruct (update_id upd) as [i|]; [|discriminate].
  unfold bind at 1 2 in E.
  unfold set_current_update_id at 1, update_vars at 1 in E.
  set (m1 := {| mem := _; trace := trace m |}) in E.
  assert (Hc1 : current_update_id (mem m1) = Some i) by reflexivity.
  assert (H1 : forall m2, current_update_id (mem m2) = Some i ->
               (c <- read_current_update_id ;; set_last_update_id (c + 1)) m2
               <> Raise e m').
  { intros m2 H2. unfold read_current_update_id. run_primitives.
    rewrite H2. discriminate. }
  destruct (message upd) as [msg|]; [|now apply H1 in E].
  destruct (text_field msg) as [raw|]; [|now apply H1 in E].
  destruct (apply_command_text_cursor raw m1) as [_ Hcur].
  destruct (apply_command_text raw m1) as [[] m2|e2 m2] eqn:Ea;
    cbn [final] in Hcur.
  - apply H1 in E; [contradiction | congruence].
  - injection E as <- _.
    eapply (@apply_command_text_raises_value_error raw), Ea.
Qed.

(** X12. Whatever the transports answer, the only exception that can end
    the loop is the [ValueError] of a numeral [float] rejects: the poll,
    the updates without command and the price check never raise. *)
Theorem loop_raises_only_value_error
  (ins : list inputs) (m m' : machine) (e : exn) :
  loop ins m = Raise e m' -> e = ValueError.
Proof.
  revert m e m'.
  change (raises_only (fun e => e = ValueError) (loop ins)).
  apply raises_only_for_each. intros i. unfold iteration.
  apply raises_only_bind; [|intros _; apply raises_only_bind; [|intros _]].
  - intros m e m'. rewrite poll_phase_unfold. unfold command_phase.
    destruct (updates_of (poll i)) as [|u rest]; [discriminate|].
    revert e m'. generalize {| mem := mem m; trace :=
      trace m ++ GetUpdates (last_update_id (mem m)) ::
      match poll i with
      | PollRequestException => [PrintLine ErrorFetchingUpdates]
      | PollJson _ => []
      end |}.
    change (raises_only (fun e => e = ValueError)
              (emit (PrintLine (ReceivedUpdates (List.length (u :: rest))));;
               for_each process_update (u :: rest))).
    apply raises_only_bind; [intros ? ? ? H; discriminate | intros _].
    apply raises_only_for_each. apply process_update_raises_value_error.
  - apply raises_only_returns. apply price_phase_returns.
  - intros ? ? ? H. discriminate.
Qed.

Lemma loop_raises_only_value_error_witness :
  loop [ {| poll := PollJson (Some [text_update 1 (txt "monitor-mps . .")]);
            quote := QuoteException |} ] initial
  = Raise ValueError
      {| mem := {| lower_limit := None; upper_limit := None;
                   alert_sent := false; last_update_id := None;
                   current_update_id := Some 1%Z |};
         trace := [GetUpdates None; PrintLine (ReceivedUpdates 1)] |}.
Proof.
  assert (E : exists e m',
            loop [ {| poll := PollJson (Some [text_update 1 (txt "monitor-mps . .")]);
                      quote := QuoteException |} ] initial = Raise e m'
            /\ m' = {| mem := {| lower_limit := None; upper_limit := None;
                                 alert_sent := false; last_update_id := None;
                                 current_update_id := Some 1%Z |};
                       trace := [GetUpdates None; PrintLine (ReceivedUpdates 1)] |}).
  { eexists _, _. split; vm_compute; reflexivity. }
  destruct E as (e & m' & E & ->).
  rewrite E. f_equal.
  exact (@loop_raises_only_value_error _ _ _ _ E).
Defined.

Lemma safe_text_returns raw m :
  safe_text raw = true -> returns (apply_command_text raw m) = true.
Proof.
  unfold safe_text. intros H. pose proof (apply_command_text_cases raw m) as C.
  destruct (re_match _) as [[g1 g2]|]; [|now rewrite C].
  apply andb_true_iff in H as [D1 D2].
  destruct (@decimal_spec g1 D1) as (_ & _ & lo & E1).
  destruct (@decimal_spec g2 D2) as (_ & _ & up & E2).
  rewrite E1, E2 in C. now rewrite C.
Qed.

Lemma safe_update_returns upd i m :
  update_id upd = Some i -> safe_update upd = true ->
  exists m', process_update upd m = Ret tt m'
             /\ last_update_id (mem m') = Some (i + 1)%Z.
Proof.
  intros Hi Hs.
  destruct (@process_update_with_id upd i m Hi) as [Hr _].
  assert (R : returns (process_update upd m) = true).
  { unfold process_update, safe_update in *. rewrite Hi.
    unfold bind at 1 2. unfold set_current_update_id at 1, update_vars at 1.
    destruct (message upd) as [msg|]; [|reflexivity].
    destruct (text_field msg) as [raw|]; [|reflexivity].
    match goal with |- context [apply_command_text raw ?m0] =>
      pose proof (@safe_text_returns raw m0 Hs) as Ha;
      destruct (@apply_command_text_cursor raw m0) as [_ Hc];
      destruct (apply_command_text raw m0) as [[] m1|e m1]; [|discriminate]
    end.
    cbn [final mem current_update_id] in Hc. run_primitives. now rewrite Hc. }
  destruct (process_update upd m) as [[] m1|e m1]; [|discriminate].
  exists m1. split; [reflexivity | apply Hr; reflexivity].
Qed.

Lemma safe_batch_returns updates : forall m,
  forallb has_id updates = true -> forallb safe_update updates = true ->
  exists m', for_each process_update updates m = Ret tt m'
             /\ (updates <> [] ->
                 last_update_id (mem m')
                 = Some (List.last (batch_ids updates) 0 + 1)%Z).
Proof.
  induction updates as [|u rest IH]; intros m Hi Hs; cbn [for_each].
  - exists m. split; [reflexivity | congruence].
  - cbn [forallb] in Hi, Hs.
    apply andb_true_iff in Hi as [Hu Hi], Hs as [Su Hs].
    unfold has_id in Hu. destruct (update_id u) as [i|] eqn:Ei; [|discriminate].
    destruct (@safe_update_returns u i m Ei Su) as (m1 & E1 & L1).
    destruct (IH m1 Hi Hs) as (m2 & E2 & L2).
    exists m2. unfold bind. rewrite E1. split; [exact E2|]. intros _.
    cbn [batch_ids flat_map]. rewrite Ei. fold (batch_ids rest).
    destruct rest as [|v rest'].
    + cbn in E2. injection E2 as <-. exact L1.
    + rewrite L2 by discriminate. cbn [app].
      assert (batch_ids (v :: rest') <> []) as Hne.
      { cbn [batch_ids flat_map]. cbn [forallb] in Hi.
        apply andb_true_iff in Hi as [Hv _]. unfold has_id in Hv.
        destruct (update_id v); [discriminate | discriminate]. }
      destruct (batch_ids (v :: rest')); [congruence | reflexivity].
Qed.

(** X13. A poll that brings updates which all carry an identifier and whose
    texts are safe (not matched by the pattern, or with two decimals) is
    always processed to the end, and then the cursor is the identifier of
    the last update plus one. *)
Theorem safe_batch_moves_cursor_past_last
  (updates : list update) (m : machine) :
  updates <> [] ->
  forallb has_id updates = true ->
  forallb safe_update updates = true ->
  exists m',
    poll_phase (PollJson (Some updates)) m = Ret tt m'
    /\ last_update_id (mem m')
       = Some (List.last (batch_ids updates) 0 + 1)%Z.
Proof.
  intros Hne Hi Hs. rewrite poll_phase_unfold. cbn [updates_of].
  unfold command_phase. destruct updates as [|u rest]; [congruence|].
  unfold bind, emit.
  match goal with |- context [for_each process_update _ ?m0] =>
    destruct (@safe_batch_returns (u :: rest) m0 Hi Hs) as (m' & E & L)
  end.
  exists m'. split; [exact E | now apply L].
Qed.

Lemma safe_batch_moves_cursor_past_last_witness :
  exists m',
    poll_phase (PollJson (Some [text_update 5 (txt "monitor-mps 1 2");
                                text_update 8 (txt "monitor-mps abc def")])) initial
    = Ret tt m'
    /\ last_update_id (mem m') = Some 9%Z.
Proof.
  apply (@safe_batch_moves_cursor_past_last
           [text_update 5 (txt "monitor-mps 1 2"); text_update 8 (txt "monitor-mps abc def")]
           initial); [discriminate | reflexivity | reflexivity].
Defined.

(** X14. If every poll brings only updates with an identifier and a safe
    text, the loop never stops: any number of iterations returns, whatever
    the router answers. *)
Theorem safe_inputs_never_stop_loop (ins : list inputs) (m : machine) :
  forallb safe_inputs ins = true -> returns (loop ins m) = true.
Proof.
  revert m. induction ins as [|i ins IH]; intros m H; [reflexivity|].
  cbn [forallb] in H. apply andb_true_iff in H as [Hi H].
  unfold safe_inputs in Hi. apply andb_true_iff in Hi as [Hid Hsafe].
  unfold loop in *. cbn [for_each]. unfold bind at 1.
  assert (R : returns (iteration i m) = true).
  { unfold iteration. unfold bind at 1. rewrite poll_phase_unfold.
    unfold command_phase.
    set (m0 := {| mem := mem m; trace := _ |}).
    assert (C : exists m1, match updates_of (poll i) with
                           | [] => emit (Sleep 1)
                           | _ :: _ =>
                               emit (PrintLine (ReceivedUpdates
                                        (List.length (updates_of (poll i)))));;
                               for_each process_update (updates_of (poll i))
                           end m0 = Ret tt m1).
    { destruct (updates_of (poll i)) as [|u rest] eqn:Eu; [eexists; reflexivity|].
      unfold bind, emit.
      match goal with |- context [for_each process_update _ ?m2] =>
        destruct (@safe_batch_returns (u :: rest) m2 Hid Hsafe) as (m1 & E & _)
      end.
      exists m1. exact E. }
    destruct C as (m1 & ->). unfold bind.
    pose proof (price_phase_returns (quote i) m1) as Hp.
    destruct (price_phase (quote i) m1) as [[] m2|]; [reflexivity | discriminate]. }
  destruct (iteration i m) as [[] m1|]; [apply IH, H | discriminate].
Qed.

Lemma safe_inputs_never_stop_loop_witness :
  returns (loop [ {| poll := PollJson (Some [text_update 5 (txt "monitor-mps 1 2");
                                             text_update 6 (txt "monitor-mps x")]);
                     quote := QuoteException |};
                  {| poll := PollRequestException;
                     quote := QuoteAmounts [] |} ] initial) = true.
Proof.
  apply safe_inputs_never_stop_loop. reflexivity.
Defined.

(** ** Alerts and pauses per iteration *)

Lemma no_alert_in_commands t : forallb command_event t = true -> alerts t = 0%nat.
Proof.
  induction t as [|e t IH]; [reflexivity|]. cbn [forallb]. intros H.
  apply andb_true_iff in H as [He Ht]. unfold alerts in *. cbn [filter].
  destruct e as [| [] | | |]; try discriminate; cbn; auto.
Qed.

Lemma no_alert_in_loop_events t : forallb loop_event t = true -> alerts t = 0%nat.
Proof.
  induction t as [|e t IH]; [reflexivity|]. cbn [forallb]. intros H.
  apply andb_true_iff in H as [He Ht]. unfold alerts in *. cbn [filter].
  destruct e as [| [] | | |]; try discriminate; cbn; auto.
Qed.

Lemma poll_phase_sends_no_alert r m :
  alerts (trace (final (poll_phase r m))) = alerts (trace m).
Proof.
  revert m.
  change (respects (fun m m' => alerts (trace m') = alerts (trace m)) (poll_phase r)).
  apply steps_poll_phase.
  - reflexivity.
  - intros a b c H1 H2. congruence.
  - intros raw m. destruct (apply_command_text_emits raw m) as (t & -> & K).
    rewrite alerts_app, (no_alert_in_commands _ K). lia.
  - intros i m. reflexivity.
  - intros i m. reflexivity.
  - intros e He m. cbn [final emit trace]. rewrite alerts_app.
    rewrite (no_alert_in_loop_events [e]); [lia | cbn; now rewrite He].
Qed.

Lemma price_phase_alerts q m :
  (alerts (trace m) <= alerts (trace (final (price_phase q m)))
   <= alerts (trace m) + 1)%nat.
Proof.
  assert (E : exists n, (n <= 1)%nat
                        /\ alerts (trace (final (price_phase q m)))
                           = (alerts (trace m) + n)%nat).
  { unfold price_phase. unfold bind at 1 2. unfold read.
    destruct (lower_limit (mem m)) as [lower|], (upper_limit (mem m)) as [upper|];
      try (exists 0%nat; cbn [final ret]; split; lia).
    unfold bind at 1. rewrite get_token_price_effect.
    destruct (quoted_price q) as [price|e].
    - unfold bind, emit. cbn [mem trace].
      match goal with |- context [evaluate lower upper price ?m0] =>
        destruct (evaluate_effect lower upper price m0) as (b & t & -> & Ht)
      end.
      cbn [final trace]. rewrite !alerts_app, Ht.
      exists (if negb (alert_sent (mem m)) && b then 1 else 0)%nat.
      cbn. destruct (negb (alert_sent (mem m)) && b); split; lia.
    - exists 0%nat. unfold emit. cbn [final trace]. rewrite !alerts_app.
      cbn. split; lia. }
  destruct E as (n & Hn & ->). lia.
Qed.

(** X15. An iteration sends at most one alert, and only in its price
    check; so a run of [n] iterations sends at most [n] alerts. *)
Theorem at_most_one_alert_per_iteration (ins : list inputs) (m : machine) :
  (alerts (trace m) <= alerts (trace (final (loop ins m)))
   <= alerts (trace m) + List.length ins)%nat.
Proof.
  revert m. induction ins as [|i ins IH]; intros m; [cbn; lia|].
  unfold loop in *. cbn [for_each List.length]. unfold bind.
  assert (H : (alerts (trace m) <= alerts (trace (final (iteration i m)))
               <= alerts (trace m) + 1)%nat).
  { unfold iteration. unfold bind.
    pose proof (poll_phase_sends_no_alert (poll i) m) as Hp.
    destruct (poll_phase (poll i) m) as [[] m1|e m1]; cbn [final] in *; [|lia].
    pose proof (price_phase_alerts (quote i) m1) as Hq.
    destruct (price_phase (quote i) m1) as [[] m2|e m2]; cbn [final] in *; [|lia].
    unfold emit. cbn [final trace]. rewrite alerts_app. cbn. lia. }
  destruct (iteration i m) as [[] m1|e m1]; cbn [final] in *; [|lia].
  specialize (IH m1). lia.
Qed.

Lemma slept_app t1 t2 : slept (t1 ++ t2) = (slept t1 + slept t2)%Z.
Proof.
  induction t1 as [|e t1 IH]; cbn; [reflexivity|].
  fold (slept (t1 ++ t2)). fold (slept t1). destruct e; lia.
Qed.

Lemma no_pause_in_commands t : forallb command_event t = true -> slept t = 0%Z.
Proof.
  induction t as [|e t IH]; [reflexivity|]. cbn [forallb]. intros H.
  apply andb_true_iff in H as [He Ht]. cbn. fold (slept t).
  destruct e as [| [] | | [] |]; try discriminate; auto.
Qed.

Lemma no_pause_in_price_check t : forallb price_event t = true -> slept t = 0%Z.
Proof.
  induction t as [|e t IH]; [reflexivity|]. cbn [forallb]. intros H.
  apply andb_true_iff in H as [He Ht]. cbn. fold (slept t).
  destruct e as [| [] | | [] |]; try discriminate; auto.
Qed.

Lemma batch_does_not_pause updates m :
  slept (trace (final (for_each process_update updates m))) = slept (trace m).
Proof.
  revert m.
  change (respects (fun m m' => slept (trace m') = slept (trace m))
            (for_each process_update updates)).
  apply steps_batch.
  - reflexivity.
  - intros a b c H1 H2. congruence.
  - intros raw m. destruct (apply_command_text_emits raw m) as (t & -> & K).
    rewrite slept_app, (no_pause_in_commands _ K). lia.
  - intros i m. reflexivity.
  - intros i m. reflexivity.
Qed.

(** X16. The pauses of one iteration: an iteration that returns has slept
    10 seconds, and one more when its poll brought no update (failed poll,
    missing [result], empty list); an iteration that raises has not slept
    at all. *)
Theorem iteration_pauses (i : inputs) (m : machine) :
  slept (trace (final (iteration i m))) =
  (slept (trace m)
   + if returns (iteration i m)
     then (if is_nil_updates (updates_of (poll i)) then 11 else 10)
     else 0)%Z.
Proof.
  set (m0 := {| mem := mem m;
                trace := trace m ++ GetUpdates (last_update_id (mem m)) ::
                         match poll i with
                         | PollRequestException => [PrintLine ErrorFetchingUpdates]
                         | PollJson _ => []
                         end |}).
  assert (E : iteration i m =
              (command_phase (updates_of (poll i)) ;;
               price_phase (quote i) ;; emit (Sleep 10)) m0).
  { unfold iteration. unfold bind at 1. rewrite poll_phase_unfold. reflexivity. }
  rewrite E. clear E.
  assert (S0 : slept (trace m0) = slept (trace m)).
  { unfold m0. cbn [trace]. rewrite slept_app. destruct (poll i); cbn; lia. }
  assert (P : forall m1,
             exists m2, (price_phase (quote i);; emit (Sleep 10)) m1 = Ret tt m2
                        /\ slept (trace m2) = (slept (trace m1) + 10)%Z).
  { intros m1. unfold bind.
    destruct (price_phase_emits (quote i) m1) as (t & Ht & K).
    pose proof (price_phase_returns (quote i) m1) as Hr.
    destruct (price_phase (quote i) m1) as [[] m2|e m2]; [|discriminate].
    cbn [final] in Ht. eexists. split; [reflexivity|]. cbn [trace].
    rewrite slept_app, Ht, slept_app, (no_pause_in_price_check _ K). cbn. lia. }
  unfold bind at 1 3. unfold command_phase.
  destruct (updates_of (poll i)) as [|u rest]; cbn [is_nil_updates].
  - unfold emit at 1 3.
    destruct (P {| mem := mem m0; trace := trace m0 ++ [Sleep 1] |})
      as (m2 & -> & S2).
    cbn [final returns]. rewrite S2. cbn [trace]. rewrite slept_app, S0. cbn. lia.
  - unfold bind at 1 3. unfold emit at 1 3.
    match goal with |- context [for_each process_update _ ?m1] =>
      pose proof (batch_does_not_pause (u :: rest) m1) as Hb;
      destruct (for_each process_update (u :: rest) m1) as [[] m2|e m2]
    end; cbn [final trace] in Hb.
    + destruct (P m2) as (m3 & -> & S3). cbn [final returns].
      rewrite S3, Hb, slept_app, S0. cbn. lia.
    + cbn [final returns]. rewrite Hb, slept_app, S0. cbn. lia.
Qed.

(** ** The price the monitor compares *)

Lemma binary_round_aux_sign s m e l :
  (0 <= m)%Z ->
  match binary_round_aux prec emax s m e l with
  | S754_zero s' | S754_infinity s' | S754_finite s' _ _ => s' = s
  | S754_nan => False
  end.
Proof.
  intros H. unfold binary_round_aux.
  pose proof (@shr_fexp_nonneg m e l H) as H1.
  destruct (shr_fexp prec emax m e l) as [mrs' e']. cbn [fst] in H1.
  pose proof (@shr_fexp_nonneg _ e' loc_Exact
                (@round_nearest_even_nonneg _ (loc_of_shr_record mrs') H1)) as H2.
  destruct (shr_fexp prec emax _ e' loc_Exact) as [mrs'' e'']. cbn [fst] in H2.
  destruct (shr_m mrs''); try lia; try reflexivity.
  destruct (e'' <=? emax - prec)%Z; reflexivity.
Qed.

Lemma of_quotient_sign neg n d :
  match of_quotient neg n d with
  | S754_zero s' | S754_infinity s' | S754_finite s' _ _ => s' = neg
  | S754_nan => False
  end.
Proof.
  unfold of_quotient, SFdiv, SFdiv_core_binary.
  set (e' := Z.min _ _).
  set (m' := match (0 - 0 - e')%Z with Zpos _ => _ | _ => _ end).
  assert (0 <= m')%Z as Hm.
  { unfold m'. destruct (0 - 0 - e')%Z; try lia. apply Z.shiftl_nonneg. lia. }
  pose proof (Z_div_mod m' (Zpos d) eq_refl) as Hd.
  destruct (Z.div_eucl m' (Zpos d)) as [q r].
  rewrite xorb_false_r. apply binary_round_aux_sign. nia.
Qed.

(** X17. [get_token_price] looks only at the last amount of the router's
    answer, and for a non-negative amount the price it returns is a finite
    float that is zero or positive: never an infinity, a NaN, or a number
    below zero. *)
Theorem router_price_is_finite_and_non_negative
  (amounts : list Z) (raw : Z) (price : float) :
  (0 <= raw)%Z ->
  quoted_price (QuoteAmounts (amounts ++ [raw])) = Ok price ->
  quoted_price (QuoteAmounts (amounts ++ [raw])) = quoted_price (QuoteAmounts [raw])
  /\ finite_nonneg price = true
  /\ lt price (S754_zero false) = false.
Proof.
  intros Hraw. unfold quoted_price. rewrite rev_app_distr. cbn [rev app].
  intros H. split; [reflexivity|].
  assert (F : finite_nonneg price = true).
  { unfold int_truediv in H.
    change (10 ^ 18)%Z with (Zpos 1000000000000000000) in H.
    destruct raw as [|n|n]; [| |lia]; cbv beta iota in H.
    - injection H as <-. reflexivity.
    - pose proof (of_quotient_sign false n 1000000000000000000) as Hs.
      destruct (of_quotient false n 1000000000000000000);
        try discriminate; try contradiction;
        injection H as <-; subst; reflexivity. }
  split; [exact F|].
  destruct price as [[]|[]| |[] ? ?]; try discriminate; reflexivity.
Qed.

Lemma router_price_is_finite_and_non_negative_witness :
  finite_nonneg (fl "0.4") = true /\ lt (fl "0.4") (S754_zero false) = false.
Proof.
  refine (proj2 (@router_price_is_finite_and_non_negative
                   [1%Z] 400000000000000000%Z (fl "0.4") _ _)).
  - lia.
  - vm_compute. reflexivity.
Defined.

(** ** Iterations without commands are a run of [evaluate] *)

Lemma evaluate_same_variables lower upper price m1 m2 :
  mem m1 = mem m2 ->
  exists b t,
    evaluate lower upper price m1 =
      Ret tt {| mem := with_alert_sent b (mem m1); trace := trace m1 ++ t |}
    /\ evaluate lower upper price m2 =
      Ret tt {| mem := with_alert_sent b (mem m2); trace := trace m2 ++ t |}.
Proof.
  intros E.
  destruct (lt price lower || gt price upper) eqn:Hout;
    destruct (alert_sent (mem m1)) eqn:Hs;
    pose proof Hs as Hs2; rewrite E in Hs2.
  - exists true, []. rewrite !evaluate_breach_alerting by assumption.
    rewrite !app_nil_r. split.
    + rewrite <- Hs, with_alert_sent_same. now destruct m1.
    + rewrite <- Hs2, with_alert_sent_same. now destruct m2.
  - exists true, [SendMessage (Alert price); PrintLine OutOfLimits].
    rewrite !evaluate_breach_armed by assumption. now rewrite <- !app_assoc.
  - exists false, [PrintLine BackInLimits].
    now rewrite !evaluate_inside_alerting by assumption.
  - exists false, []. rewrite !evaluate_inside_armed by assumption.
    now rewrite !app_nil_r.
Qed.

(** One iteration whose poll brings nothing: the variables and the number
    of alerts change as by [evaluate] on the price fetched, or not at all
    when the quote fails. *)
Lemma commandless_iteration lower upper i m :
  updates_of (poll i) = [] ->
  lower_limit (mem m) = Some lower -> upper_limit (mem m) = Some upper ->
  exists m',
    iteration i m = Ret tt m'
    /\ match quoted_price (quote i) with
       | Ok price =>
           exists b t,
             evaluate lower upper price m =
               Ret tt {| mem := with_alert_sent b (mem m); trace := trace m ++ t |}
             /\ mem m' = with_alert_sent b (mem m)
             /\ alerts (trace m') = (alerts (trace m) + alerts t)%nat
       | Err _ => mem m' = mem m /\ alerts (trace m') = alerts (trace m)
       end.
Proof.
  intros Hi Hl Hu.
  set (m0 := {| mem := mem m;
                trace := trace m ++ GetUpdates (last_update_id (mem m)) ::
                         match poll i with
                         | PollRequestException => [PrintLine ErrorFetchingUpdates]
                         | PollJson _ => []
                         end |}).
  assert (E : iteration i m =
              (command_phase (updates_of (poll i)) ;;
               price_phase (quote i) ;; emit (Sleep 10)) m0).
  { unfold iteration. unfold bind at 1. rewrite poll_phase_unfold. reflexivity. }
  rewrite E, Hi. clear E. unfold command_phase. unfold bind at 1. unfold emit at 1.
  set (m1 := {| mem := mem m0; trace := trace m0 ++ [Sleep 1] |}).
  assert (A1 : alerts (trace m1) = alerts (trace m)).
  { unfold m1, m0. cbn [trace]. rewrite !alerts_app. destruct (poll i); cbn; lia. }
  unfold bind. destruct (quoted_price (quote i)) as [price|e] eqn:Eq.
  - rewrite (@price_phase_checks lower upper (quote i) price m1 Hl Hu Eq).
    set (m2 := {| mem := mem m1; trace := _ |}).
    destruct (@evaluate_same_variables lower upper price m m2 eq_refl)
      as (b & t & E1 & ->).
    eexists. split; [reflexivity|]. exists b, t. split; [exact E1|].
    split; [reflexivity|]. unfold emit. cbn [final trace].
    unfold m2. cbn [trace]. rewrite !alerts_app, A1. cbn. lia.
  - assert (Ep : price_phase (quote i) m1 =
                 Ret tt {| mem := mem m1;
                           trace := trace m1 ++ [GetAmountsOut;
                                                 PrintLine ErrorFetchingPrice;
                                                 PrintLine UnableToRetrievePrice] |}).
    { unfold price_phase. unfold bind at 1 2. unfold read.
      change (mem m1) with (mem m). rewrite Hl, Hu. unfold bind at 1.
      rewrite get_token_price_effect, Eq. unfold bind, emit.
      cbn [mem trace]. now rewrite <- app_assoc. }
    rewrite Ep. eexists. split; [reflexivity|]. unfold emit. cbn [mem trace].
    split; [reflexivity|]. rewrite !alerts_app, A1. cbn. lia.
Qed.

Lemma commandless_loop lower upper ins : forall m1 m2,
  Forall (fun i => updates_of (poll i) = []) ins ->
  mem m1 = mem m2 ->
  lower_limit (mem m1) = Some lower -> upper_limit (mem m1) = Some upper ->
  exists m1' m2',
    loop ins m1 = Ret tt m1'
    /\ evaluate_all lower upper (observed_prices (map quote ins)) m2 = Ret tt m2'
    /\ mem m1' = mem m2'
    /\ (alerts (trace m1') + alerts (trace m2)
        = alerts (trace m2') + alerts (trace m1))%nat.
Proof.
  induction ins as [|i ins IH]; intros m1 m2 Hq E Hl Hu.
  - exists m1, m2. cbn. repeat split; auto. lia.
  - apply Forall_cons_iff in Hq as [Hi Hq].
    destruct (@commandless_iteration lower upper i m1 Hi Hl Hu) as (n1 & It & H).
    unfold loop, evaluate_all in *. cbn [for_each map observed_prices flat_map].
    fold (observed_prices (map quote ins)).
    unfold bind at 1. rewrite It.
    destruct (quoted_price (quote i)) as [price|e].
    + destruct H as (b & t & E1 & Em & Ea).
      destruct (@evaluate_same_variables lower upper price m1 m2 E)
        as (b' & t' & E1' & E2).
      rewrite E1 in E1'. injection E1' as Eb Et.
      apply app_inv_head in Et. subst t'.
      cbn [app for_each]. unfold bind at 1. rewrite E2.
      set (n2 := {| mem := with_alert_sent b' (mem m2); trace := trace m2 ++ t |}).
      assert (En : mem n1 = mem n2).
      { rewrite Em. unfold n2. cbn [mem].
        subst b'. now rewrite E. }
      destruct (IH n1 n2 Hq En) as (m1' & m2' & L1 & L2 & Em' & Ea').
      * rewrite Em. cbn. exact Hl.
      * rewrite Em. cbn. exact Hu.
      * exists m1', m2'. repeat split; auto.
        unfold n2 in Ea'. cbn [trace] in Ea'. rewrite alerts_app in Ea'. lia.
    + destruct H as [Em Ea]. cbn [app].
      assert (En : mem n1 = mem m2) by congruence.
      destruct (IH n1 m2 Hq En) as (m1' & m2' & L1 & L2 & Em' & Ea').
      * now rewrite Em.
      * now rewrite Em.
      * exists m1', m2'. repeat split; auto. lia.
Qed.

(** X18. Iterations whose polls bring no update, from a machine with limits
    set: the loop returns, and it treats the prices the router delivers
    (failed quotes skipped) as a plain run of [evaluate] does; it ends
    with the same variables, and the alerts it sends are the
    Armed-to-Alerting transitions of the monitor over these prices. *)
Theorem commandless_iterations_evaluate_observed_prices
  (lower upper : float) (ins : list inputs) (m : machine) :
  Forall (fun i => updates_of (poll i) = []) ins ->
  lower_limit (mem m) = Some lower ->
  upper_limit (mem m) = Some upper ->
  let prices := observed_prices (map quote ins) in
  returns (loop ins m) = true
  /\ mem (final (loop ins m)) = mem (final (evaluate_all lower upper prices m))
  /\ alerts (trace (final (loop ins m)))
     = (alerts (trace m)
        + transitions Armed Alerting (monitor_history lower upper prices m))%nat.
Proof.
  intros Hq Hl Hu prices.
  destruct (@commandless_loop lower upper ins m m Hq eq_refl Hl Hu)
    as (m1' & m2' & L1 & L2 & Em & Ea).
  destruct (@evaluate_all_counts lower upper prices m Hl Hu) as [_ Hc].
  fold prices in L2. rewrite L1. rewrite L2 in Hc |- *. cbn [final returns] in *.
  repeat split; auto. lia.
Qed.

Lemma commandless_iterations_evaluate_observed_prices_witness :
  let ins := [ {| poll := PollJson (Some []);
                  quote := QuoteAmounts [1; 400000000000000000]%Z |};
               {| poll := PollRequestException; quote := QuoteException |};
               {| poll := PollJson None;
                  quote := QuoteAmounts [1; 300000000000000000]%Z |} ] in
  let m := configured_machine (fl "0.5") (fl "2.0") false in
  alerts (trace (final (loop ins m)))
  = (alerts (trace m)
     + transitions Armed Alerting
         (monitor_history (fl "0.5") (fl "2.0")
            (observed_prices (map quote ins)) m))%nat.
Proof.
  intros ins m.
  refine (proj2 (proj2 (@commandless_iterations_evaluate_observed_prices
                          (fl "0.5") (fl "2.0") ins m _ eq_refl eq_refl))).
  repeat constructor.
Defined.

(** ** The cursor is assigned, never compared *)

(** X19. The script does not look at the cursor when it processes an
    update: an accepted command that the transport delivers twice is applied
    twice, with two confirmations, and an update with an identifier [i]
    sets the cursor to [i + 1] even when the cursor was above it. *)
Theorem redelivered_command_is_applied_again
  (raw L U : text) (lo up : float) (i : Z) (m : machine) :
  command_grammar (strip raw) L U ->
  py_float L = Ok lo -> py_float U = Ok up ->
  exists m',
    for_each process_update [text_update i raw; text_update i raw] m = Ret tt m'
    /\ trace m' = trace m ++ [SendMessage (LimitsUpdated lo up);
                              PrintLine (LimitsUpdatedLine lo up);
                              SendMessage (LimitsUpdated lo up);
                              PrintLine (LimitsUpdatedLine lo up)]
    /\ last_update_id (mem m') = Some (i + 1)%Z.
Proof.
  intros G E1 E2.
  assert (H : forall m0, apply_command_text raw m0 = Ret tt (configured_by lo up m0)).
  { intros m0. pose proof (apply_command_text_cases raw m0) as C.
    now rewrite (command_grammar_matches G), E1, E2 in C. }
  assert (P : forall m0,
             process_update (text_update i raw) m0 =
             Ret tt {| mem := {| lower_limit := Some lo; upper_limit := Some up;
                                 alert_sent := false;
                                 last_update_id := Some (i + 1)%Z;
                                 current_update_id := Some i |};
                       trace := trace m0 ++ [SendMessage (LimitsUpdated lo up);
                                             PrintLine (LimitsUpdatedLine lo up)] |}).
  { intros m0. unfold process_update, text_update.
    cbn [update_id message text_field].
    unfold bind at 1 2. unfold set_current_update_id at 1, update_vars at 1.
    rewrite H. run_primitives. reflexivity. }
  cbn [for_each]. unfold bind. rewrite P, P. cbn [trace].
  eexists. split; [reflexivity|]. cbn [trace mem last_update_id].
  now rewrite <- app_assoc.
Qed.

Lemma redelivered_command_is_applied_again_witness :
  exists m',
    for_each process_update [text_update 3 (txt "monitor-mps 1 2");
                             text_update 3 (txt "monitor-mps 1 2")]
      {| mem := {| lower_limit := None; upper_limit := None; alert_sent := false;
                   last_update_id := Some 10%Z; current_update_id := Some 9%Z |};
         trace := [] |} = Ret tt m'
    /\ last_update_id (mem m') = Some 4%Z.
Proof.
  destruct (@redelivered_command_is_applied_again
              (txt "monitor-mps 1 2") (txt "1") (txt "2") (fl "1") (fl "2") 3%Z
              {| mem := {| lower_limit := None; upper_limit := None;
                           alert_sent := false;
                           last_update_id := Some 10%Z;
                           current_update_id := Some 9%Z |};
                 trace := [] |})
    as (m' & E & _ & L).
  - exists (txt " "), (txt " "). repeat split; reflexivity.
  - vm_compute. reflexivity.
  - vm_compute. reflexivity.
  - exists m'. auto.
Defined.

(** ** Updates without identifier in a batch *)


